(** * A shallow embedding of the REST query layer of electrs ([src/rest.rs])

    The development follows the functions of [rest.rs] one by one: the
    difficulty computation, the depth-based cache lifetime, the script type
    classification, the cursor resolution and merged pagination of the
    per-scripthash history endpoints, the multi-address endpoints, the
    pre-checks of [POST /txs/test], the address to scripthash conversion,
    [prepare_txs] and the outspend endpoint; then the block list, block
    transaction, transaction, outspends and internal transaction routes of
    [handle_request], with the parsers they rely on.  The default
    (non-[liquid]) build is modelled throughout. *)

From Stdlib Require Import ZArith String List Bool Lia Floats Permutation.
From Stdlib Require Uint63.
Import ListNotations.

Set Warnings "-inexact-float".

(** ** Difficulty ([difficulty_new]) *)

Module Difficulty.

Local Open Scope float_scope.

(** [x as f64] for a [u32] value [x]: exact, the value is below 2^53. *)
Definition u32_as_f64 (x : Z) : float := PrimFloat.of_uint63 (Uint63.of_Z x).

(** [while n_shift < 29 { d_diff *= 256.0; n_shift += 1; }], with fuel; the
    shift is a byte, so 256 rounds always suffice. *)
Fixpoint mul_loop (fuel : nat) (n_shift : Z) (d_diff : float) : Z * float :=
  match fuel with
  | O => (n_shift, d_diff)
  | S fuel' =>
      if (n_shift <? 29)%Z then mul_loop fuel' (n_shift + 1)%Z (d_diff * 256)
      else (n_shift, d_diff)
  end.

(** [while n_shift > 29 { d_diff /= 256.0; n_shift -= 1; }] *)
Fixpoint div_loop (fuel : nat) (n_shift : Z) (d_diff : float) : Z * float :=
  match fuel with
  | O => (n_shift, d_diff)
  | S fuel' =>
      if (29 <? n_shift)%Z then div_loop fuel' (n_shift - 1)%Z (d_diff / 256)
      else (n_shift, d_diff)
  end.

(** [difficulty_new] on the [bits] field of the header. *)
Definition difficulty_new (bits : Z) : float :=
  let n_shift := Z.land (Z.shiftr bits 24) 255 in
  let d_diff := u32_as_f64 65535 / u32_as_f64 (Z.land bits 16777215) in
  let '(n_shift, d_diff) := mul_loop 256 n_shift d_diff in
  let '(_, d_diff) := div_loop 256 n_shift d_diff in
  d_diff.

(** The algorithm as the specification words it: start from
    [0x0000ffff / coef], multiply by 256 once per step from [shift] up to 29,
    divide by 256 once per step from [shift] down to 29. *)
Fixpoint times256 (k : nat) (d : float) : float :=
  match k with O => d | S k' => times256 k' (d * 256) end.

Fixpoint over256 (k : nat) (d : float) : float :=
  match k with O => d | S k' => over256 k' (d / 256) end.

Definition difficulty_spec (nbits : Z) : float :=
  let shift := Z.land (Z.shiftr nbits 24) 255 in
  let coef := Z.land nbits 16777215 in
  let diff := u32_as_f64 65535 / u32_as_f64 coef in
  if (shift <? 29)%Z then times256 (Z.to_nat (29 - shift)) diff
  else over256 (Z.to_nat (shift - 29)) diff.

End Difficulty.

(** ** Chain data (types of [crate::chain], [crate::util], [crate::new_index])

    Hashes (txids, block hashes, scripthashes) are 256-bit values, kept as
    [Z]; heights and indexes are [usize]/[u32] values, also as [Z]. *)

Module Types.

Definition Txid := Z.
Definition BlockHash := Z.
Definition FullHash := Z.

Record OutPoint := { op_txid : Txid; op_vout : Z }.

Definition outpoint_eqb (a b : OutPoint) : bool :=
  Z.eqb (op_txid a) (op_txid b) && Z.eqb (op_vout a) (op_vout b).

Record TxIn := { previous_output : OutPoint; sequence : Z }.

(** Script bytes. *)
Definition Script := list Z.

Record TxOut := { value : Z; script_pubkey : Script }.

Record Transaction := { txid : Txid; input : list TxIn; output : list TxOut }.

Record BlockId := { bid_height : Z; bid_hash : BlockHash; bid_time : Z }.

Record TransactionStatus := {
  confirmed : bool;
  block_height : option Z;
  block_hash : option BlockHash;
  block_time : option Z }.

(** Modelled from the spec: [TransactionStatus::from(Option<BlockId>)] of
    [crate::util]; a status is confirmed, with the height, hash and time of
    its block, exactly when a confirming block is known (scenario S2:
    [status: {confirmed, height: 2}]). *)
Definition status_from (b : option BlockId) : TransactionStatus :=
  match b with
  | Some b => {| confirmed := true; block_height := Some (bid_height b);
                 block_hash := Some (bid_hash b); block_time := Some (bid_time b) |}
  | None => {| confirmed := false; block_height := None;
               block_hash := None; block_time := None |}
  end.

(** Modelled from the spec: [SpendingInput] of [crate::new_index]. *)
Record SpendingInput := { si_txid : Txid; si_vin : Z; si_confirmed : option BlockId }.

(** The HTTP status codes the handlers use. *)
Inductive StatusCode := OK | BAD_REQUEST | NOT_FOUND | UNPROCESSABLE_ENTITY.

(** [struct HttpError(StatusCode, String)]; the message is kept as a tag. *)
Inductive ErrMsg :=
  | MsgAfterTxidNotFound
  | MsgBodyTooLong
  | MsgInvalidTxSize (index : nat)
  | MsgInvalidTxHex (index : nat)
  | MsgTooManyTxs
  | MsgInvalidAddress
  | MsgInvalidNetwork
  | MsgInvalidScripthash
  | MsgInvalidHex
  | MsgOther.

Record HttpError := { he_status : StatusCode; he_msg : ErrMsg }.

(** [impl From<String> for HttpError]: a [BAD_REQUEST]. *)
Definition http_error_from (m : ErrMsg) : HttpError :=
  {| he_status := BAD_REQUEST; he_msg := m |}.

Inductive result (A E : Type) := Ok (a : A) | Err (e : E).
Arguments Ok {A E} a.
Arguments Err {A E} e.

Definition bind {A B E} (r : result A E) (k : A -> result B E) : result B E :=
  match r with Ok a => k a | Err e => Err e end.

Notation "x <- r ;; k" := (bind r (fun x => k))
  (at level 61, r at next level, right associativity).

End Types.

(** ** Cache lifetime ([ttl_by_depth]) *)

Module Ttl.
Import Types.

Definition TTL_LONG : Z := 157784630.
Definition TTL_SHORT : Z := 10.
Definition CONF_FINAL : Z := 10.

(** [usize] subtraction as a release build performs it (wrapping). *)
Definition usize_sub (a b : Z) : Z := (a - b) mod 2 ^ 64.

(** [ttl_by_depth(height, query)]; [best_height] is
    [query.chain().best_height()]. *)
Definition ttl_by_depth (height : option Z) (best_height : Z) : Z :=
  match height with
  | None => TTL_SHORT
  | Some height =>
      if Z.leb CONF_FINAL (usize_sub best_height height) then TTL_LONG else TTL_SHORT
  end.

End Ttl.

(** ** [GET /tx/{txid}/outspend/{vout}] *)

Module Outspend.
Import Types Ttl.

Record SpendingValue := {
  spent : bool;
  sv_txid : option Txid;
  sv_vin : option Z;
  sv_status : option TransactionStatus }.

(** [#[derive(Default)]] *)
Definition SpendingValue_default : SpendingValue :=
  {| spent := false; sv_txid := None; sv_vin := None; sv_status := None |}.

(** [impl From<SpendingInput> for SpendingValue] *)
Definition SpendingValue_from (spend : SpendingInput) : SpendingValue :=
  {| spent := true; sv_txid := Some (si_txid spend); sv_vin := Some (si_vin spend);
     sv_status := Some (status_from (si_confirmed spend)) |}.

(** A JSON response: the body and its cache lifetime. *)
Record Response (A : Type) := { body : A; ttl : Z }.
Arguments body {A} r.
Arguments ttl {A} r.

Definition option_bind {A B} (o : option A) (f : A -> option B) : option B :=
  match o with Some a => f a | None => None end.

(** The arm of [handle_request] for the outspend route, after [hash] and
    [index] have been parsed into the outpoint; [lookup_spend] is
    [query.lookup_spend] and [best_height] the chain tip height. *)
Definition handle_outspend (lookup_spend : OutPoint -> option SpendingInput)
    (best_height : Z) (outpoint : OutPoint) : result (Response SpendingValue) HttpError :=
  let spend := match lookup_spend outpoint with
               | Some s => SpendingValue_from s
               | None => SpendingValue_default
               end in
  let ttl := ttl_by_depth (option_bind (sv_status spend) block_height) best_height in
  Ok {| body := spend; ttl := ttl |}.

(** The whole arm: [Txid::from_hex(hash)?] and [index.parse::<u32>()?]
    come first, their failures are [BAD_REQUEST]s. *)
Definition handle_outspend_route (lookup_spend : OutPoint -> option SpendingInput)
    (best_height : Z) (hash : option Txid) (index : option Z)
    : result (Response SpendingValue) HttpError :=
  match hash, index with
  | None, _ => Err (http_error_from MsgInvalidHex)
  | _, None => Err (http_error_from MsgOther)
  | Some h, Some i => handle_outspend lookup_spend best_height {| op_txid := h; op_vout := i |}
  end.

End Outspend.

(** ** Script type classification ([TxOutValue::new]) *)

Module ScriptType.
Import Types.
Local Open Scope string_scope.
Local Open Scope Z_scope.

(** [script[i]] (the callers check the length first). *)
Definition byte_at (s : Script) (i : nat) : Z := nth i s 0.

Definition OP_0 := 0x00.
Definition OP_PUSHBYTES_2 := 0x02.
Definition OP_PUSHBYTES_20 := 0x14.
Definition OP_PUSHBYTES_32 := 0x20.
Definition OP_PUSHBYTES_33 := 0x21.
Definition OP_PUSHBYTES_65 := 0x41.
Definition OP_PUSHNUM_1 := 0x51.
Definition OP_PUSHNUM_15 := 0x5f.
Definition OP_RETURN := 0x6a.
Definition OP_DUP := 0x76.
Definition OP_EQUAL := 0x87.
Definition OP_EQUALVERIFY := 0x88.
Definition OP_HASH160 := 0xa9.
Definition OP_CHECKSIG := 0xac.
Definition OP_CHECKMULTISIG := 0xae.

(** The [Script] predicates of rust-bitcoin that [TxOutValue::new] calls. *)
Definition is_empty (s : Script) : bool := Nat.eqb (length s) 0.

Definition is_op_return (s : Script) : bool :=
  Nat.ltb 0 (length s) && (byte_at s 0 =? OP_RETURN).

Definition is_p2pk (s : Script) : bool :=
  (Nat.eqb (length s) 67 && (byte_at s 0 =? OP_PUSHBYTES_65)
     && (byte_at s 66 =? OP_CHECKSIG))
  || (Nat.eqb (length s) 35 && (byte_at s 0 =? OP_PUSHBYTES_33)
     && (byte_at s 34 =? OP_CHECKSIG)).

Definition is_p2pkh (s : Script) : bool :=
  Nat.eqb (length s) 25 && (byte_at s 0 =? OP_DUP) && (byte_at s 1 =? OP_HASH160)
  && (byte_at s 2 =? OP_PUSHBYTES_20) && (byte_at s 23 =? OP_EQUALVERIFY)
  && (byte_at s 24 =? OP_CHECKSIG).

Definition is_p2sh (s : Script) : bool :=
  Nat.eqb (length s) 23 && (byte_at s 0 =? OP_HASH160)
  && (byte_at s 1 =? OP_PUSHBYTES_20) && (byte_at s 22 =? OP_EQUAL).

Definition is_v0_p2wpkh (s : Script) : bool :=
  Nat.eqb (length s) 22 && (byte_at s 0 =? OP_0) && (byte_at s 1 =? OP_PUSHBYTES_20).

Definition is_v0_p2wsh (s : Script) : bool :=
  Nat.eqb (length s) 34 && (byte_at s 0 =? OP_0) && (byte_at s 1 =? OP_PUSHBYTES_32).

(** [opcodes::All::classify(ClassifyContext::Legacy)] is [IllegalOp] or
    [ReturnOp]: OP_VERIF, OP_VERNOTIF, the disabled opcodes, OP_RETURN,
    OP_RESERVED, OP_VER, OP_RESERVED1, OP_RESERVED2 and every opcode from
    0xba on. *)
Definition unspendable_opcode (b : Z) : bool :=
  (b =? 0x65) || (b =? 0x66) || (b =? 0x7e) || (b =? 0x7f) || (b =? 0x80)
  || (b =? 0x81) || (b =? 0x83) || (b =? 0x84) || (b =? 0x85) || (b =? 0x86)
  || (b =? 0x8d) || (b =? 0x8e) || (b =? 0x95) || (b =? 0x96) || (b =? 0x97)
  || (b =? 0x98) || (b =? 0x99)
  || (b =? OP_RETURN) || (b =? 0x50) || (b =? 0x62) || (b =? 0x89) || (b =? 0x8a)
  || (0xba <=? b).

Definition is_provably_unspendable (s : Script) : bool :=
  negb (is_empty s) && unspendable_opcode (byte_at s 0).

(** [is_v1_p2tr], [is_bare_multisig] and [is_anchor] of [rest.rs]. *)
Definition is_v1_p2tr (s : Script) : bool :=
  Nat.eqb (length s) 34 && (byte_at s 0 =? OP_PUSHNUM_1)
  && (byte_at s 1 =? OP_PUSHBYTES_32).

Definition is_bare_multisig (s : Script) : bool :=
  let len := length s in
  Nat.leb 37 len
  && (byte_at s (len - 1) =? OP_CHECKMULTISIG)
  && (OP_PUSHNUM_1 <=? byte_at s (len - 2))
  && (byte_at s (len - 2) <=? OP_PUSHNUM_15)
  && (OP_PUSHNUM_1 <=? byte_at s 0)
  && (byte_at s 0 <=? byte_at s (len - 2)).

Definition is_anchor (s : Script) : bool :=
  Nat.eqb (length s) 4 && (byte_at s 0 =? OP_PUSHNUM_1)
  && (byte_at s 1 =? OP_PUSHBYTES_2) && (byte_at s 2 =? 0x4e) && (byte_at s 3 =? 0x73).

(** The [script_type] chain of [TxOutValue::new]; [is_fee] is [false]
    outside the [liquid] build. *)
Definition script_type (s : Script) : String.string :=
  if is_empty s then "empty"
  else if is_op_return s then "op_return"
  else if is_p2pk s then "p2pk"
  else if is_p2pkh s then "p2pkh"
  else if is_p2sh s then "p2sh"
  else if is_v0_p2wpkh s then "v0_p2wpkh"
  else if is_v0_p2wsh s then "v0_p2wsh"
  else if is_v1_p2tr s then "v1_p2tr"
  else if is_anchor s then "anchor"
  else if is_provably_unspendable s then "provably_unspendable"
  else if is_bare_multisig s then "multisig"
  else "unknown".

(** The shape checks of the chain, as data, to run them in another order. *)
Inductive Kind :=
  | KEmpty | KOpReturn | KP2pk | KP2pkh | KP2sh | KV0P2wpkh | KV0P2wsh
  | KV1P2tr | KAnchor | KProvablyUnspendable | KMultisig.

Definition Kind_eq_dec (a b : Kind) : {a = b} + {a <> b}.
Proof. decide equality. Defined.

Definition kind_test (k : Kind) : Script -> bool :=
  match k with
  | KEmpty => is_empty | KOpReturn => is_op_return | KP2pk => is_p2pk
  | KP2pkh => is_p2pkh | KP2sh => is_p2sh | KV0P2wpkh => is_v0_p2wpkh
  | KV0P2wsh => is_v0_p2wsh | KV1P2tr => is_v1_p2tr | KAnchor => is_anchor
  | KProvablyUnspendable => is_provably_unspendable | KMultisig => is_bare_multisig
  end.

Definition kind_label (k : Kind) : String.string :=
  match k with
  | KEmpty => "empty" | KOpReturn => "op_return" | KP2pk => "p2pk"
  | KP2pkh => "p2pkh" | KP2sh => "p2sh" | KV0P2wpkh => "v0_p2wpkh"
  | KV0P2wsh => "v0_p2wsh" | KV1P2tr => "v1_p2tr" | KAnchor => "anchor"
  | KProvablyUnspendable => "provably_unspendable" | KMultisig => "multisig"
  end.

(** The order of the source's chain. *)
Definition source_order : list Kind :=
  [KEmpty; KOpReturn; KP2pk; KP2pkh; KP2sh; KV0P2wpkh; KV0P2wsh; KV1P2tr;
   KAnchor; KProvablyUnspendable; KMultisig].

Fixpoint first_match (order : list Kind) (s : Script) : option Kind :=
  match order with
  | [] => None
  | k :: order' => if kind_test k s then Some k else first_match order' s
  end.

(** The reported type when the checks run in [order]. *)
Definition script_type_in (order : list Kind) (s : Script) : String.string :=
  match first_match order s with Some k => kind_label k | None => "unknown" end.

End ScriptType.

(** ** [POST /txs/test] *)

Module TxTest.
Import Types.
Local Open Scope Z_scope.

(** A Rust [String], as its UTF-8 bytes; [len()] is their number. *)
Definition RString := list Z.

Definition str_len (s : RString) : Z := Z.of_nat (length s).

(** The value of one hex digit ([0-9], [a-f], [A-F]). *)
Definition hex_val (c : Z) : option Z :=
  if (48 <=? c) && (c <=? 57) then Some (c - 48)
  else if (97 <=? c) && (c <=? 102) then Some (c - 87)
  else if (65 <=? c) && (c <=? 70) then Some (c - 55)
  else None.

(** [Vec::<u8>::from_hex]: pairs of hex digits, high nibble first; an odd
    length or a non-digit is an error. *)
Fixpoint from_hex (s : RString) : option (list Z) :=
  match s with
  | [] => Some []
  | hi :: lo :: rest =>
      match hex_val hi, hex_val lo, from_hex rest with
      | Some h, Some l, Some t => Some (h * 16 + l :: t)
      | _, _, _ => None
      end
  | [_] => None
  end.

(** The pre-check of one item: [(120..800_000).contains(&txhex.len())],
    then [Vec::<u8>::from_hex(txhex)]. *)
Definition check_item (index : nat) (txhex : RString) : result unit HttpError :=
  if negb ((120 <=? str_len txhex) && (str_len txhex <? 800000)) then
    Err (http_error_from (MsgInvalidTxSize index))
  else
    match from_hex txhex with
    | Some _ => Ok tt
    | None => Err (http_error_from (MsgInvalidTxHex index))
    end.

(** [txhexes.iter().enumerate().try_for_each(..)] *)
Fixpoint pre_checks (index : nat) (txhexes : list RString) : result unit HttpError :=
  match txhexes with
  | [] => Ok tt
  | txhex :: rest => _ <- check_item index txhex ;; pre_checks (S index) rest
  end.

Section Handler.
(** The answer of the node, and [query.test_mempool_accept] forwarding to
    it. *)
Variable Answer : Type.
Variable test_mempool_accept : list RString -> option float -> result Answer HttpError.

(** The arm of [handle_request] for [POST /txs/test], from the decoded JSON
    body; [maxfeerate] is the outcome of parsing the query parameter. *)
Definition handle_txs_test (txhexes : list RString)
    (maxfeerate : result (option float) HttpError) : result Answer HttpError :=
  if Nat.ltb 25 (length txhexes) then Err (http_error_from MsgTooManyTxs)
  else
    maxfeerate <- maxfeerate ;;
    _ <- pre_checks 0 txhexes ;;
    test_mempool_accept txhexes maxfeerate.

End Handler.

Arguments handle_txs_test {Answer} test_mempool_accept txhexes maxfeerate.

(** A payload of [2 * k] hex zeros, [k] zero bytes. *)
Definition zeros_hex (k : nat) : RString := repeat 48 (2 * k).

(** Modelled from the spec: the size of a transaction in weight units
    (BIP 141), three times its size without witness data plus its full
    size; for a transaction without witness data, four times its size. *)
Definition tx_weight (base_size total_size : Z) : Z := 3 * base_size + total_size.

(** Modelled from the spec: the consensus serialization of a transaction
    without witness data, by which its weight is counted: little-endian
    integers, [CompactSize] counts, each input as its outpoint, an empty
    [scriptSig] and its sequence, each output as its value and script. *)
Definition le_bytes (n : nat) (v : Z) : list Z :=
  map (fun i => (v / 2 ^ (8 * Z.of_nat i)) mod 256) (seq 0 n).

Definition compact_size (n : Z) : list Z :=
  if n <? 253 then [n]
  else if n <? 65536 then 253 :: le_bytes 2 n
  else if n <? 2 ^ 32 then 254 :: le_bytes 4 n
  else 255 :: le_bytes 8 n.

Definition serialize_legacy (version lock_time : Z) (tx : Transaction) : list Z :=
  le_bytes 4 version ++
  compact_size (Z.of_nat (length (input tx))) ++
  flat_map (fun txin => le_bytes 32 (op_txid (previous_output txin)) ++
                        le_bytes 4 (op_vout (previous_output txin)) ++
                        compact_size 0 ++ le_bytes 4 (sequence txin)) (input tx) ++
  compact_size (Z.of_nat (length (output tx))) ++
  flat_map (fun txout => le_bytes 8 (value txout) ++
                         compact_size (Z.of_nat (length (script_pubkey txout))) ++
                         script_pubkey txout) (output tx) ++
  le_bytes 4 lock_time.

End TxTest.

(** ** Addresses ([address_to_scripthash], [to_scripthash]) *)

Module AddressCheck.
Import Types.

(** [bitcoin::Network], the network an address decodes to. *)
Inductive BNetwork := BBitcoin | BTestnet | BSignet | BRegtest.

(** Modelled from the spec: [crate::chain::Network] of the default build,
    with the variants the handler names, and its [From<BNetwork>]
    conversion that maps each network to the one of the same name. *)
Inductive Network := Bitcoin | Testnet | Testnet4 | Regtest | Signet.

Definition network_from (n : BNetwork) : Network :=
  match n with
  | BBitcoin => Bitcoin | BTestnet => Testnet | BSignet => Signet | BRegtest => Regtest
  end.

Definition network_eqb (a b : Network) : bool :=
  match a, b with
  | Bitcoin, Bitcoin | Testnet, Testnet | Testnet4, Testnet4
  | Regtest, Regtest | Signet, Signet => true
  | _, _ => false
  end.

(** A parsed [bitcoin::Address]: its network and its [script_pubkey()]. *)
Record Address := { addr_network : BNetwork; addr_script_pubkey : Script }.

Section Conversion.
(** [Address::from_str] of rust-bitcoin. *)
Variable address_from_str : list Z -> option Address.
(** SHA-256 of a byte string. *)
Variable sha256 : Script -> FullHash.
(** [parse_scripthash] (hex decoding of a 32-byte hash). *)
Variable parse_scripthash : list Z -> result FullHash HttpError.

(** Modelled from the spec: [compute_script_hash] of [crate::new_index],
    [scripthash = SHA256(scriptPubKey)]. *)
Definition compute_script_hash (script : Script) : FullHash := sha256 script.

(** The [is_expected_net] test of the default build. *)
Definition is_expected_net (addr_network network : Network) : bool :=
  network_eqb addr_network network
  || (network_eqb addr_network Testnet
      && match network with Regtest | Signet | Testnet4 => true | _ => false end).

Definition address_to_scripthash (addr : list Z) (network : Network)
    : result FullHash HttpError :=
  match address_from_str addr with
  | None => Err (http_error_from MsgInvalidAddress)
  | Some a =>
      if negb (is_expected_net (network_from (addr_network a)) network) then
        Err (http_error_from MsgInvalidNetwork)
      else Ok (compute_script_hash (addr_script_pubkey a))
  end.

Inductive ScriptKind := KAddress | KScripthash | KOtherType.

Definition to_scripthash (script_type : ScriptKind) (script_str : list Z) (network : Network)
    : result FullHash HttpError :=
  match script_type with
  | KAddress => address_to_scripthash script_str network
  | KScripthash => parse_scripthash script_str
  | KOtherType => Err (http_error_from MsgOther)
  end.

End Conversion.

(** A sample decoder (every string decodes to a testnet address) and
    a sample hash, to evaluate the conversion on. *)
Definition testnet_parser (_ : list Z) : option Address :=
  Some {| addr_network := BTestnet; addr_script_pubkey := [0x51%Z] |}.

Definition length_hash (s : Script) : FullHash := Z.of_nat (length s).

End AddressCheck.

(** ** Transactions in responses ([TransactionValue], [prepare_txs]) *)

Module TxValues.
Import Types.
Local Open Scope Z_scope.

(** Modelled from the spec: [has_prevout] and [is_coinbase] of
    [crate::util]; an input has a previous output to look up unless it is
    the coinbase input, whose outpoint is the null outpoint
    ([txid] 0, [vout] 0xffffffff). *)
Definition is_null_outpoint (op : OutPoint) : bool :=
  (op_txid op =? 0) && (op_vout op =? 4294967295).

Definition is_coinbase (txin : TxIn) : bool := is_null_outpoint (previous_output txin).

Definition has_prevout (txin : TxIn) : bool := negb (is_null_outpoint (previous_output txin)).

Record TxOutValue := {
  scriptpubkey : Script;
  scriptpubkey_type : String.string;
  tov_value : Z }.

(** [TxOutValue::new] (the fields the default build fills from the
    output; the asm and address renderings are left out). *)
Definition TxOutValue_new (txout : TxOut) : TxOutValue :=
  {| scriptpubkey := script_pubkey txout;
     scriptpubkey_type := ScriptType.script_type (script_pubkey txout);
     tov_value := value txout |}.

Record TxInValue := {
  tiv_txid : Txid;
  tiv_vout : Z;
  prevout : option TxOutValue;
  tiv_is_coinbase : bool;
  tiv_sequence : Z }.

(** The prevouts of a transaction by input index ([HashMap<u32, &TxOut>]). *)
Definition Prevouts := list (Z * TxOut).

Fixpoint prevouts_get (prevouts : Prevouts) (index : Z) : option TxOut :=
  match prevouts with
  | [] => None
  | (i, o) :: rest => if i =? index then Some o else prevouts_get rest index
  end.

Definition TxInValue_new (txin : TxIn) (prevout : option TxOut) : TxInValue :=
  {| tiv_txid := op_txid (previous_output txin);
     tiv_vout := op_vout (previous_output txin);
     prevout := option_map TxOutValue_new prevout;
     tiv_is_coinbase := is_coinbase txin;
     tiv_sequence := sequence txin |}.

Record TransactionValue := {
  tv_txid : Txid;
  vin : list TxInValue;
  vout : list TxOutValue;
  sigops : Z;
  fee : Z;
  status : option TransactionStatus }.

(** [(0..).zip(xs)], the [enumerate()] of an iterator. *)
Fixpoint enumerate_from {A} (i : Z) (xs : list A) : list (Z * A) :=
  match xs with [] => [] | x :: xs' => (i, x) :: enumerate_from (i + 1) xs' end.

(** Modelled from the spec: [extract_tx_prevouts] of [crate::util]; the
    previous output of every input that has one, by input index, or an
    error when one of them is missing from [txos] ("transactions with
    missing prevouts"). *)
Fixpoint extract_prevouts_from (txos : OutPoint -> option TxOut)
    (ins : list (Z * TxIn)) : result Prevouts HttpError :=
  match ins with
  | [] => Ok []
  | (index, txin) :: rest =>
      if has_prevout txin then
        match txos (previous_output txin) with
        | None => Err (http_error_from MsgOther)
        | Some o => r <- extract_prevouts_from txos rest ;; Ok ((index, o) :: r)
        end
      else extract_prevouts_from txos rest
  end.

Definition extract_tx_prevouts (tx : Transaction) (txos : OutPoint -> option TxOut)
    : result Prevouts HttpError :=
  extract_prevouts_from txos (enumerate_from 0 (input tx)).

Section Prepare.
(** [transaction_sigop_count] and [get_tx_fee] of [crate::util]. *)
Variable transaction_sigop_count : Transaction -> Prevouts -> option Z.
Variable get_tx_fee : Transaction -> Prevouts -> Z.
(** The stored outputs, chain or mempool, by outpoint. *)
Variable lookup_txo : OutPoint -> option TxOut.

(** [TransactionValue::new] *)
Definition TransactionValue_new (tx : Transaction) (blockid : option BlockId)
    (txos : OutPoint -> option TxOut) : result TransactionValue HttpError :=
  prevouts <- extract_tx_prevouts tx txos ;;
  match transaction_sigop_count tx prevouts with
  | None => Err (http_error_from MsgOther)
  | Some sigops =>
      Ok {| tv_txid := txid tx;
            vin := map (fun '(index, txin) => TxInValue_new txin (prevouts_get prevouts index))
                       (enumerate_from 0 (input tx));
            vout := map TxOutValue_new (output tx);
            sigops := sigops;
            fee := get_tx_fee tx prevouts;
            status := Some (status_from blockid) |}
  end.

(** Modelled from the spec: [Query::lookup_txos]; the outputs found for
    the requested outpoints (none for the others). *)
Definition lookup_txos (outpoints : list OutPoint) : OutPoint -> option TxOut :=
  fun op => if existsb (outpoint_eqb op) outpoints then lookup_txo op else None.

Definition result_ok {A E} (r : result A E) : option A :=
  match r with Ok a => Some a | Err _ => None end.

Fixpoint filter_map {A B} (f : A -> option B) (xs : list A) : list B :=
  match xs with
  | [] => []
  | x :: xs' => match f x with Some y => y :: filter_map f xs' | None => filter_map f xs' end
  end.

(** [prepare_txs] *)
Definition prepare_txs (txs : list (Transaction * option BlockId)) : list TransactionValue :=
  let outpoints :=
    flat_map (fun '(tx, _) => map previous_output (filter has_prevout (input tx))) txs in
  let prevouts := lookup_txos outpoints in
  filter_map (fun '(tx, blockid) => result_ok (TransactionValue_new tx blockid prevouts)) txs.

End Prepare.

End TxValues.

(** ** Per-scripthash history ([handle_request] arms, [find_txid]) *)

Module History.
Import Types Ttl TxValues.

(** The queries the handlers make on [query.mempool()] and [query.chain()]. *)
Record Backend := {
  (** [mempool.lookup_txn(txid).is_some()] *)
  mempool_has_txn : Txid -> bool;
  (** [chain.tx_confirming_block(txid)] *)
  tx_confirming_block : Txid -> option BlockId;
  (** [mempool.history(scripthash, last_seen_txid, limit)] *)
  mempool_history : FullHash -> option Txid -> nat -> list Transaction;
  (** [mempool.history_group(scripthashes, last_seen_txid, limit)] *)
  mempool_history_group : list FullHash -> option Txid -> nat -> list Transaction;
  (** [chain.history(scripthash, last_seen_txid, start_height, limit)], an
      iterator of results *)
  chain_history : FullHash -> option Txid -> option Z -> nat ->
                  list (result (Transaction * BlockId) HttpError);
  chain_history_group : list FullHash -> option Txid -> option Z -> nat ->
                        list (result (Transaction * BlockId) HttpError);
  (** [chain.summary_group(..)], as the list of its entries' txids *)
  chain_summary_group : list FullHash -> option Txid -> option Z -> nat -> list Txid }.

Inductive TxidLocation := LMempool | LChain (height : Z) | LNone.

(** [find_txid] *)
Definition find_txid (q : Backend) (txid : Txid) : TxidLocation :=
  if mempool_has_txn q txid then LMempool
  else match tx_confirming_block q txid with
       | Some block => LChain (bid_height block)
       | None => LNone
       end.

(** [.collect::<Result<Vec<_>, _>>()] *)
Fixpoint collect {A E} (rs : list (result A E)) : result (list A) E :=
  match rs with
  | [] => Ok []
  | r :: rs' => a <- r ;; l <- collect rs' ;; Ok (a :: l)
  end.

Definition after_txid_not_found : HttpError :=
  {| he_status := UNPROCESSABLE_ENTITY; he_msg := MsgAfterTxidNotFound |}.

Section Merge.
(** The two page queries of one arm: the single-scripthash arm passes
    [mempool_history q script_hash] and [chain_history q script_hash], the
    multi-address arm their [_group] versions. *)
Variable q : Backend.
Variable mempool_page : option Txid -> nat -> list Transaction.
Variable chain_page : option Txid -> option Z -> nat ->
                      list (result (Transaction * BlockId) HttpError).

(** The body shared by the [GET .../txs] and [POST .../txs] arms, up to the
    call of [prepare_txs]: the list [txs] they build. *)
Definition merged_txs (max_txs : nat) (after_txid : option Txid)
    : result (list (Transaction * option BlockId)) HttpError :=
  let after_txid_location :=
    match after_txid with Some txid => find_txid q txid | None => LMempool end in
  match after_txid_location with
  | LNone => Err after_txid_not_found
  | _ =>
    let '(txs, confirmed_block_height) :=
      match after_txid_location with
      | LChain height => ([], Some height)
      | _ => (map (fun tx => (tx, None)) (mempool_page after_txid max_txs), None)
      end in
    if Nat.ltb (length txs) max_txs then
      let after_txid_ref := match txs with [] => after_txid | _ :: _ => None end in
      chain <- collect (chain_page after_txid_ref confirmed_block_height
                                   (max_txs - length txs)) ;;
      Ok (txs ++ map (fun '(tx, blockid) => (tx, Some blockid)) chain)
    else Ok txs
  end.

End Merge.

Section Arms.
Variable transaction_sigop_count : Transaction -> Prevouts -> option Z.
Variable get_tx_fee : Transaction -> Prevouts -> Z.
Variable lookup_txo : OutPoint -> option TxOut.
Variable q : Backend.

Definition prepare (txs : list (Transaction * option BlockId)) : list TransactionValue :=
  prepare_txs transaction_sigop_count get_tx_fee lookup_txo txs.

(** [GET /address|scripthash/{}/txs], from the parsed scripthash,
    [max_txs] and [after_txid]. *)
Definition handle_script_txs (script_hash : FullHash) (max_txs : nat)
    (after_txid : option Txid) : result (Outspend.Response (list TransactionValue)) HttpError :=
  txs <- merged_txs q (mempool_history q script_hash) (chain_history q script_hash)
                    max_txs after_txid ;;
  Ok {| Outspend.body := prepare txs; Outspend.ttl := TTL_SHORT |}.

(** The checks and parsing the multi-address arms share: the body length,
    the JSON list of strings, at most [MULTI_ADDRESS_LIMIT] (300) of them,
    and the [filter_map] of [to_scripthash]. *)
Definition MULTI_ADDRESS_LIMIT : nat := 300.

Definition parse_script_hashes (to_scripthash : list Z -> result FullHash HttpError)
    (body_too_long : bool) (script_strs : result (list (list Z)) HttpError)
    : result (list FullHash) HttpError :=
  if body_too_long then
    Err {| he_status := UNPROCESSABLE_ENTITY; he_msg := MsgBodyTooLong |}
  else
    script_strs <- script_strs ;;
    if Nat.ltb MULTI_ADDRESS_LIMIT (length script_strs) then
      Err {| he_status := UNPROCESSABLE_ENTITY; he_msg := MsgBodyTooLong |}
    else Ok (filter_map (fun script_str => result_ok (to_scripthash script_str)) script_strs).

(** [POST /addresses/txs] and [POST /scripthashes/txs] *)
Definition handle_multi_txs (to_scripthash : list Z -> result FullHash HttpError)
    (body_too_long : bool) (script_strs : result (list (list Z)) HttpError)
    (max_txs : nat) (after_txid : option Txid)
    : result (Outspend.Response (list TransactionValue)) HttpError :=
  script_hashes <- parse_script_hashes to_scripthash body_too_long script_strs ;;
  txs <- merged_txs q (mempool_history_group q script_hashes)
                    (chain_history_group q script_hashes) max_txs after_txid ;;
  Ok {| Outspend.body := prepare txs; Outspend.ttl := TTL_SHORT |}.

(** [POST /addresses/txs/summary] and [POST /scripthashes/txs/summary];
    [max_txs] is already clamped to the configured summary limit. *)
Definition handle_multi_summary (to_scripthash : list Z -> result FullHash HttpError)
    (body_too_long : bool) (script_strs : result (list (list Z)) HttpError)
    (last_seen_txid : option Txid) (max_txs : nat)
    : result (Outspend.Response (list Txid)) HttpError :=
  script_hashes <- parse_script_hashes to_scripthash body_too_long script_strs ;;
  let location :=
    match last_seen_txid with Some txid => find_txid q txid | None => LMempool end in
  match location with
  | LNone => Err after_txid_not_found
  | _ =>
    let confirmed_block_height :=
      match location with LChain height => Some height | _ => None end in
    Ok {| Outspend.body := chain_summary_group q script_hashes last_seen_txid
                             confirmed_block_height max_txs;
          Outspend.ttl := TTL_SHORT |}
  end.

End Arms.

End History.

(** ** A store for the history queries *)

Module SpecBackend.
Import Types History.
Local Open Scope Z_scope.

(** Modelled from the spec: the page of [Mempool::history] and
    [ChainQuery::history] (4.5, 4.6 Rule M): "the page request first
    anchors to X within the list and returns the next N entries"; a cursor
    that is not in the list anchors nothing. *)
Fixpoint after_anchor {A} (key : A -> Txid) (x : Txid) (l : list A) : list A :=
  match l with
  | [] => []
  | y :: l' => if key y =? x then l' else after_anchor key x l'
  end.

Definition page {A} (key : A -> Txid) (l : list A) (after : option Txid) (n : nat) : list A :=
  firstn n (match after with None => l | Some x => after_anchor key x l end).

(** The indexed state: the mempool's txids, each scripthash's mempool
    history, each scripthash's chain history (newest first, with the
    confirming block) and the tx-confirm index. *)
Record World := {
  w_mempool_txids : list Txid;
  w_mempool_hist : FullHash -> list Transaction;
  w_chain_hist : FullHash -> list (Transaction * BlockId);
  w_confirming : Txid -> option BlockId }.

(** The chain history from [start_height] down ("the chain page starts
    after (txid, h)"). *)
Definition chain_entries (w : World) (shs : list FullHash) (start_height : option Z)
    : list (Transaction * BlockId) :=
  filter (fun '(_, b) => match start_height with None => true | Some h => bid_height b <=? h end)
         (flat_map (w_chain_hist w) shs).

Definition chain_key (p : Transaction * BlockId) : Txid := txid (fst p).

Definition backend_of (w : World) : Backend := {|
  mempool_has_txn := fun t => existsb (Z.eqb t) (w_mempool_txids w);
  tx_confirming_block := w_confirming w;
  mempool_history := fun sh after n => page txid (w_mempool_hist w sh) after n;
  mempool_history_group := fun shs after n => page txid (flat_map (w_mempool_hist w) shs) after n;
  chain_history := fun sh after h n => map Ok (page chain_key (chain_entries w [sh] h) after n);
  chain_history_group := fun shs after h n => map Ok (page chain_key (chain_entries w shs h) after n);
  chain_summary_group := fun shs after h n => map chain_key (page chain_key (chain_entries w shs h) after n) |}.

(** Scenario S4: a chain transaction [T_c] (txid 100) confirmed at height 5
    and a mempool transaction [T_m] (txid 200), both on scripthash 7. *)
Definition block5 : BlockId := {| bid_height := 5; bid_hash := 555; bid_time := 0 |}.

Definition T_c : Transaction :=
  {| txid := 100; input := []; output := [{| value := 5000000000; script_pubkey := [0x51] |}] |}.

Definition T_m : Transaction :=
  {| txid := 200; input := []; output := [{| value := 1000; script_pubkey := [0x51] |}] |}.

Definition s4_world : World := {|
  w_mempool_txids := [200];
  w_mempool_hist := fun sh => if sh =? 7 then [T_m] else [];
  w_chain_hist := fun sh => if sh =? 7 then [(T_c, block5)] else [];
  w_confirming := fun t => if t =? 100 then Some block5 else None |}.

(** Sigop counting, fees and the output store of the scenario. *)
Definition s4_sigops (_ : Transaction) (_ : TxValues.Prevouts) : option Z := Some 0.
Definition s4_fee (_ : Transaction) (_ : TxValues.Prevouts) : Z := 0.
Definition s4_txo (_ : OutPoint) : option TxOut := None.

Definition s4_txs (max_txs : nat) (after_txid : option Txid)
    : result (Outspend.Response (list TxValues.TransactionValue)) HttpError :=
  handle_script_txs s4_sigops s4_fee s4_txo (backend_of s4_world) 7 max_txs after_txid.

Definition body_txids (r : result (Outspend.Response (list TxValues.TransactionValue)) HttpError)
    : option (list Txid) :=
  match r with Ok resp => Some (map TxValues.tv_txid (Outspend.body resp)) | Err _ => None end.

End SpecBackend.

(** ** The other routes of [handle_request] and their helpers

    The routes below keep the messages of the source as tags of [RestMsg]
    and the status codes as HTTP numbers.  A reply built by [http_message]
    or [json_response] carries its status, body and [max-age]; a failure is
    the [HttpError(status, message)] the handler returns. *)

Module Rest.
Import Types Ttl TxTest TxValues Outspend.
Local Open Scope Z_scope.

Inductive RestMsg :=
  | RBlockNotFound
  | RTxIndexOutOfRange
  | RStartIndexOutOfRange
  | RStartIndexMultiple (per_page : Z)
  | RMissingTx
  | RInvalidNumber
  | RInvalidHexString
  | RInvalidScripthash
  | RTransactionNotFound
  | RTransactionMissingPrevouts
  | RNoTxidsSpecified
  | RTooManyTxids
  | RHexError
  | RBodyTooLong.

Record RestError := { re_status : Z; re_msg : RestMsg }.

(** [HttpError::not_found] and [impl From<String> for HttpError]. *)
Definition not_found (m : RestMsg) : RestError := {| re_status := 404; re_msg := m |}.
Definition error_from (m : RestMsg) : RestError := {| re_status := 400; re_msg := m |}.

(** A built response: status, body and the [Cache-Control] max-age. *)
Record Reply (A : Type) := { r_status : Z; r_body : A; r_ttl : Z }.
Arguments r_status {A} r.
Arguments r_body {A} r.
Arguments r_ttl {A} r.

(** [http_message(status, message, ttl)] *)
Definition http_message {A} (status : Z) (message : A) (ttl : Z) : result (Reply A) RestError :=
  Ok {| r_status := status; r_body := message; r_ttl := ttl |}.

(** [json_response(value, ttl)]: the builder's default status, 200. *)
Definition json_response {A} (value : A) (ttl : Z) : result (Reply A) RestError :=
  Ok {| r_status := 200; r_body := value; r_ttl := ttl |}.

Definition ok_or {A} (o : option A) (e : RestError) : result A RestError :=
  match o with Some a => Ok a | None => Err e end.

(** *** Parsing of the standard library and of [bitcoin_hashes] *)

Definition is_digit (c : Z) : bool := (48 <=? c) && (c <=? 57).

(** The digit loop of [from_str_radix] (radix 10) for an unsigned type
    whose largest value is [max]: [checked_mul] then [checked_add]. *)
Fixpoint parse_digits (max acc : Z) (s : RString) : option Z :=
  match s with
  | [] => Some acc
  | c :: s' =>
      if is_digit c then
        if acc * 10 <=? max then
          if acc * 10 + (c - 48) <=? max then parse_digits max (acc * 10 + (c - 48)) s'
          else None
        else None
      else None
  end.

(** [str::parse::<uN>()]: an empty string is an error, a lone sign is an
    error, a leading [+] is skipped, and a [-] is an invalid digit. *)
Definition parse_uint (bits : Z) (s : RString) : option Z :=
  let max := 2 ^ bits - 1 in
  match s with
  | [] => None
  | c :: rest =>
      if ((c =? 43) || (c =? 45)) && match rest with [] => true | _ => false end then None
      else if c =? 43 then parse_digits max 0 rest
      else parse_digits max 0 s
  end.

Definition parse_usize (s : RString) : option Z := parse_uint 64 s.
Definition parse_u32 (s : RString) : option Z := parse_uint 32 s.

(** The value of a list of decimal digits, most significant first. *)
Definition dec_value (ds : list Z) : Z := fold_left (fun acc d => acc * 10 + d) ds 0.

(** [ToString] of an unsigned integer: its decimal digits, most
    significant first ([fuel] bounds the number of digits). *)
Fixpoint dec_digits (fuel : nat) (n : Z) : RString :=
  match fuel with
  | O => []
  | S fuel' =>
      if n <? 10 then [48 + n] else dec_digits fuel' (n / 10) ++ [48 + n mod 10]
  end.

Definition usize_to_string (n : Z) : RString := dec_digits 20 n.

(** [str::split(sep)] on a one-byte separator: [k] separators give [k + 1]
    pieces, the empty string gives one empty piece. *)
Fixpoint split_on (sep : Z) (s : RString) : list RString :=
  match s with
  | [] => [[]]
  | c :: rest =>
      if c =? sep then [] :: split_on sep rest
      else match split_on sep rest with
           | piece :: pieces => (c :: piece) :: pieces
           | [] => [[c]]
           end
  end.

(** Big-endian value of bytes. *)
Definition bytes_value (bytes : list Z) : Z := fold_left (fun acc b => acc * 256 + b) bytes 0.

(** [Txid::from_hex] and [BlockHash::from_hex] of [bitcoin_hashes]: 64 hex
    digits, shown in reversed byte order. *)
Definition hash_from_hex (s : RString) : option Z :=
  match from_hex s with
  | Some bytes => if Nat.eqb (length bytes) 32 then Some (bytes_value (rev bytes)) else None
  | None => None
  end.

(** [impl From<bitcoin::hashes::hex::Error> for HttpError] *)
Definition parse_hash (s : RString) : result Z RestError :=
  ok_or (hash_from_hex s) (error_from RInvalidHexString).

(** [impl From<ParseIntError> for HttpError] *)
Definition parse_number (o : option Z) : result Z RestError :=
  ok_or o (error_from RInvalidNumber).

(** [hex::encode] of bytes, lower case. *)
Definition hex_digit (n : Z) : Z := if n <? 10 then 48 + n else 87 + n.

Definition hex_encode (bytes : list Z) : RString :=
  flat_map (fun b => [hex_digit (b / 16); hex_digit (b mod 16)]) bytes.

(** [full_hash(&bytes)]: the 32 bytes as a hash. *)
Definition full_hash (bytes : list Z) : FullHash := bytes_value bytes.

(** [parse_scripthash] *)
Definition parse_scripthash (scripthash : RString) : result FullHash RestError :=
  match from_hex scripthash with
  | None => Err (error_from RInvalidHexString)
  | Some bytes =>
      if negb (Nat.eqb (length bytes) 32) then Err (error_from RInvalidScripthash)
      else Ok (full_hash bytes)
  end.

(** [multi_address_too_long(&body)], from the body length. *)
Definition multi_address_too_long (body_len : Z) : bool :=
  (8 + 64) * Z.of_nat History.MULTI_ADDRESS_LIMIT <? body_len.

(** *** Blocks ([BlockValue::new], [blocks]) *)

Record BlockHeader := {
  version : Z;
  prev_blockhash : BlockHash;
  merkle_root : Z;
  time : Z;
  bits : Z;
  nonce : Z }.

Record BlockMeta := { tx_count : Z; size : Z; weight : Z }.

(** [BlockHeaderMeta]; [bhm_hash] is [header.block_hash()]. *)
Record BlockHeaderMeta := {
  bhm_header : BlockHeader;
  bhm_hash : BlockHash;
  bhm_height : Z;
  bhm_meta : BlockMeta;
  bhm_mtp : Z }.

Record BlockValue := {
  bv_id : BlockHash;
  bv_height : Z;
  bv_version : Z;
  bv_timestamp : Z;
  bv_tx_count : Z;
  bv_size : Z;
  bv_weight : Z;
  bv_merkle_root : Z;
  previousblockhash : option BlockHash;
  mediantime : Z;
  bv_nonce : Z;
  bv_bits : Z;
  difficulty : float }.

(** [BlockValue::new]; [BlockHash::default()] is the all-zero hash. *)
Definition BlockValue_new (blockhm : BlockHeaderMeta) : BlockValue :=
  let header := bhm_header blockhm in
  {| bv_id := bhm_hash blockhm;
     bv_height := bhm_height blockhm;
     bv_version := version header;
     bv_timestamp := time header;
     bv_tx_count := tx_count (bhm_meta blockhm);
     bv_size := size (bhm_meta blockhm);
     bv_weight := weight (bhm_meta blockhm);
     bv_merkle_root := merkle_root header;
     previousblockhash :=
       if negb (prev_blockhash header =? 0) then Some (prev_blockhash header) else None;
     mediantime := bhm_mtp blockhm;
     bv_nonce := nonce header;
     bv_bits := bits header;
     difficulty := Difficulty.difficulty_new (bits header) |}.

Section Blocks.
(** [query.chain().header_by_height(h).hash()], [best_hash()] and
    [get_block_with_meta]. *)
Variable header_by_height : Z -> option BlockHash.
Variable best_hash : BlockHash.
Variable get_block_with_meta : BlockHash -> option BlockHeaderMeta.

(** The loop of [blocks], [n] iterations left. *)
Fixpoint blocks_loop (n : nat) (current_hash : BlockHash) : result (list BlockValue) RestError :=
  match n with
  | O => Ok []
  | S n' =>
      blockhm <- ok_or (get_block_with_meta current_hash) (not_found RBlockNotFound) ;;
      let current_hash := prev_blockhash (bhm_header blockhm) in
      let value := BlockValue_new blockhm in
      if current_hash =? 0 then Ok [value]
      else values <- blocks_loop n' current_hash ;; Ok (value :: values)
  end.

(** [blocks(query, config, start_height)]; [limit] is
    [config.rest_default_block_limit]. *)
Definition blocks (limit : nat) (start_height : option Z)
    : result (Reply (list BlockValue)) RestError :=
  current_hash <- match start_height with
                  | Some height => ok_or (header_by_height height) (not_found RBlockNotFound)
                  | None => Ok best_hash
                  end ;;
  values <- blocks_loop limit current_hash ;;
  json_response values TTL_SHORT.

(** The [GET /blocks[/{start_height}]] arm: a start height that does not
    parse is dropped. *)
Definition handle_blocks (limit : nat) (start_height : option RString)
    : result (Reply (list BlockValue)) RestError :=
  blocks limit (match start_height with Some s => parse_usize s | None => None end).

End Blocks.

(** Consecutive entries of a block list are parent and child: each entry
    but the last has a [previousblockhash], the id of the next entry. *)
Fixpoint chain_linked (values : list BlockValue) : bool :=
  match values with
  | v :: ((w :: _) as rest) =>
      match previousblockhash v with
      | Some p => (p =? bv_id w) && chain_linked rest
      | None => false
      end
  | _ => true
  end.

(** *** Block transactions and single transactions *)

Section BlockTxs.
Variable transaction_sigop_count : Transaction -> Prevouts -> option Z.
Variable get_tx_fee : Transaction -> Prevouts -> Z.
Variable lookup_txo : OutPoint -> option TxOut.
(** [chain.get_block_txids], [chain.blockid_by_hash], [query.lookup_txn],
    [chain.tx_confirming_block] and [chain.best_height()]. *)
Variable get_block_txids : BlockHash -> option (list Txid).
Variable blockid_by_hash : BlockHash -> option BlockId.
Variable lookup_txn : Txid -> option Transaction.
Variable tx_confirming_block : Txid -> option BlockId.
Variable best_height : Z.

Definition prepare (txs : list (Transaction * option BlockId)) : list TransactionValue :=
  prepare_txs transaction_sigop_count get_tx_fee lookup_txo txs.

(** [GET /block/{hash}/txid/{index}] *)
Definition handle_block_txid (hash index : RString) : result (Reply Txid) RestError :=
  hash <- parse_hash hash ;;
  index <- parse_number (parse_usize index) ;;
  txids <- ok_or (get_block_txids hash) (not_found RBlockNotFound) ;;
  if Z.of_nat (length txids) <=? index then Err (not_found RTxIndexOutOfRange)
  else http_message 200 (nth (Z.to_nat index) txids 0) TTL_LONG.

(** The [lookup_txn] map and its [collect::<Result<Vec<_>, _>>()]. *)
Fixpoint lookup_block_txs (confirmed_blockid : option BlockId) (txids : list Txid)
    : result (list (Transaction * option BlockId)) RestError :=
  match txids with
  | [] => Ok []
  | t :: rest =>
      tx <- ok_or (lookup_txn t) (error_from RMissingTx) ;;
      txs <- lookup_block_txs confirmed_blockid rest ;;
      Ok ((tx, confirmed_blockid) :: txs)
  end.

(** [GET /block/{hash}/txs[/{start_index}]]; [per_page] is
    [config.rest_default_chain_txs_per_page].  [None] is the panic of
    [start_index % per_page] for [per_page = 0]. *)
Definition handle_block_txs (per_page : Z) (hash : RString) (start_index : option RString)
    : option (result (Reply (list TransactionValue)) RestError) :=
  match parse_hash hash with
  | Err e => Some (Err e)
  | Ok hash =>
    match get_block_txids hash with
    | None => Some (Err (not_found RBlockNotFound))
    | Some txids =>
      let start_index :=
        match start_index with
        | None => 0
        | Some el => match parse_u32 el with Some n => n | None => 0 end
        end in
      if Z.of_nat (length txids) <=? start_index then
        Some (Err (not_found RStartIndexOutOfRange))
      else if per_page =? 0 then None
      else if negb (start_index mod per_page =? 0) then
        Some (Err (error_from (RStartIndexMultiple per_page)))
      else
        let confirmed_blockid := blockid_by_hash hash in
        Some (txs <- lookup_block_txs confirmed_blockid
                       (firstn (Z.to_nat per_page) (skipn (Z.to_nat start_index) txids)) ;;
              json_response (prepare txs)
                (ttl_by_depth (option_map bid_height confirmed_blockid) best_height))
    end
  end.

(** [GET /tx/{hash}]: a transaction [prepare_txs] drops is answered with a
    500 message. *)
Definition handle_tx (hash : RString)
    : result (Reply (TransactionValue + RestMsg)) RestError :=
  hash <- parse_hash hash ;;
  tx <- ok_or (lookup_txn hash) (not_found RTransactionNotFound) ;;
  let blockid := tx_confirming_block hash in
  let ttl := ttl_by_depth (option_map bid_height blockid) best_height in
  match prepare [(tx, blockid)] with
  | [] => http_message 500 (inr RTransactionMissingPrevouts) 0
  | v :: _ => json_response (inl v) ttl
  end.

(** [txids.into_iter().map(Txid::from_hex).collect::<Result<Vec<_>, _>>()] *)
Fixpoint parse_txids (strs : list RString) : option (list Txid) :=
  match strs with
  | [] => Some []
  | s :: rest =>
      match hash_from_hex s, parse_txids rest with
      | Some t, Some ts => Some (t :: ts)
      | _, _ => None
      end
  end.

(** [POST /internal/txs], from the decoded JSON body. *)
Definition handle_internal_txs (txid_strings : result (list RString) RestError)
    : result (Reply (list TransactionValue + RestMsg)) RestError :=
  txid_strings <- txid_strings ;;
  match parse_txids txid_strings with
  | Some txids =>
      let txs := TxValues.filter_map
                   (fun t => option_map (fun tx => (tx, tx_confirming_block t)) (lookup_txn t))
                   txids in
      json_response (inl (prepare txs)) 0
  | None => http_message 400 (inr RHexError) 0
  end.

End BlockTxs.

Section MempoolTxs.
Variable transaction_sigop_count : Transaction -> Prevouts -> option Z.
Variable get_tx_fee : Transaction -> Prevouts -> Z.
Variable lookup_txo : OutPoint -> option TxOut.
(** [mempool.lookup_txn] *)
Variable mempool_lookup_txn : Txid -> option Transaction.

(** [POST /internal/mempool/txs], from the decoded JSON body. *)
Definition handle_internal_mempool_txs (txid_strings : result (list RString) RestError)
    : result (Reply (list TransactionValue + RestMsg)) RestError :=
  txid_strings <- txid_strings ;;
  match parse_txids txid_strings with
  | Some txids =>
      let txs := TxValues.filter_map
                   (fun t => option_map (fun tx => (tx, None)) (mempool_lookup_txn t)) txids in
      json_response (inl (prepare_txs transaction_sigop_count get_tx_fee lookup_txo txs)) 0
  | None => http_message 400 (inr RHexError) 0
  end.

End MempoolTxs.

(** *** Outspends of many transactions and outpoints *)

Section Outspends.
(** [query.lookup_txn], [query.lookup_tx_spends] and [query.lookup_spend]. *)
Variable lookup_txn : Txid -> option Transaction.
Variable lookup_tx_spends : Transaction -> list (option SpendingInput).
Variable lookup_spend : OutPoint -> option SpendingInput.

Definition spending_value (spend : option SpendingInput) : SpendingValue :=
  match spend with Some s => SpendingValue_from s | None => SpendingValue_default end.

(** The spends of one requested txid: none for a string that is not a
    known txid. *)
Definition tx_spends (txid_str : RString) : list SpendingValue :=
  match option_bind (hash_from_hex txid_str) lookup_txn with
  | Some tx => map spending_value (lookup_tx_spends tx)
  | None => []
  end.

(** [GET /txs/outspends?txids=...]; [txids] is the query parameter. *)
Definition handle_txs_outspends (txids : option RString)
    : result (Reply (list (list SpendingValue) + RestMsg)) RestError :=
  txids <- ok_or txids (error_from RNoTxidsSpecified) ;;
  let txid_strings := split_on 44 txids in
  if 50 <? Z.of_nat (length txid_strings) then http_message 400 (inr RTooManyTxids) 0
  else json_response (inl (map tx_spends txid_strings)) TTL_SHORT.

(** [POST /internal/txs/outspends/by-txid], from the decoded JSON body. *)
Definition handle_outspends_by_txid (txid_strings : result (list RString) RestError)
    : result (Reply (list (list SpendingValue))) RestError :=
  txid_strings <- txid_strings ;;
  json_response (map tx_spends txid_strings) TTL_SHORT.

(** One element of [POST /internal/txs/outspends/by-outpoint]: the first
    two [:]-separated parts, as txid and vout. *)
Definition outpoint_spend (outpoint_str : RString) : SpendingValue :=
  match split_on 58 outpoint_str with
  | hash :: index :: _ =>
      match hash_from_hex hash, parse_u32 index with
      | Some txid, Some vout => spending_value (lookup_spend {| op_txid := txid; op_vout := vout |})
      | _, _ => SpendingValue_default
      end
  | _ => SpendingValue_default
  end.

Definition handle_outspends_by_outpoint (outpoint_strings : result (list RString) RestError)
    : result (Reply (list SpendingValue)) RestError :=
  outpoint_strings <- outpoint_strings ;;
  json_response (map outpoint_spend outpoint_strings) TTL_SHORT.

End Outspends.

(** The [witness] field of [TxInValue::new]: [None] for an empty witness,
    otherwise the [hex::encode] of each of its items. *)
Definition witness_value (witness : list (list Z)) : option (list RString) :=
  match witness with
  | [] => None
  | _ => Some (map hex_encode witness)
  end.

End Rest.

(* ------------------------------------------------------------------ *)
(** * Properties *)

Module DifficultyFacts.
Import Difficulty.

Lemma mul_loop_reaches_29 (k fuel : nat) (n : Z) (d : float) :
  (n + Z.of_nat k = 29)%Z -> (k <= fuel)%nat ->
  mul_loop fuel n d = (29%Z, times256 k d).
Proof.
  revert fuel n d; induction k as [|k IH]; intros fuel n d Hn Hk.
  - replace n with 29%Z by lia.
    destruct fuel; reflexivity.
  - destruct fuel as [|fuel]; [lia|].
    simpl. replace (n <? 29)%Z with true by (symmetry; apply Z.ltb_lt; lia).
    apply IH; lia.
Qed.

Lemma mul_loop_stops (fuel : nat) (n : Z) (d : float) :
  (29 <= n)%Z -> mul_loop fuel n d = (n, d).
Proof.
  intros Hn; destruct fuel; simpl; [reflexivity|].
  replace (n <? 29)%Z with false by (symmetry; apply Z.ltb_ge; lia).
  reflexivity.
Qed.

Lemma div_loop_reaches_29 (k fuel : nat) (n : Z) (d : float) :
  (n - Z.of_nat k = 29)%Z -> (k <= fuel)%nat ->
  div_loop fuel n d = (29%Z, over256 k d).
Proof.
  revert fuel n d; induction k as [|k IH]; intros fuel n d Hn Hk.
  - replace n with 29%Z by lia.
    destruct fuel; reflexivity.
  - destruct fuel as [|fuel]; [lia|].
    simpl. replace (29 <? n)%Z with true by (symmetry; apply Z.ltb_lt; lia).
    apply IH; lia.
Qed.

Lemma div_loop_stops (fuel : nat) (n : Z) (d : float) :
  (n <= 29)%Z -> div_loop fuel n d = (n, d).
Proof.
  intros Hn; destruct fuel; simpl; [reflexivity|].
  replace (29 <? n)%Z with false by (symmetry; apply Z.ltb_ge; lia).
  reflexivity.
Qed.

Lemma shift_byte (bits : Z) :
  (0 <= Z.land (Z.shiftr bits 24) 255 < 256)%Z.
Proof.
  change 255%Z with (Z.ones 8).
  rewrite Z.land_ones by lia.
  apply Z.mod_pos_bound; lia.
Qed.

(** C6: [difficulty_new] computes, for every [bits], the difficulty the
    spec describes: the exponent byte is moved towards 29 by factors of
    256 starting from 0xffff divided by the 24-bit mantissa; [bits = 0]
    (zero mantissa) gives infinity. *)
Theorem difficulty_new_matches_spec :
  (forall nbits : Z, difficulty_new nbits = difficulty_spec nbits) /\
  difficulty_new 0 = PrimFloat.infinity.
Proof.
  split; [|vm_compute; reflexivity].
  intros nbits. unfold difficulty_new, difficulty_spec.
  pose proof (shift_byte nbits) as Hb.
  set (s := Z.land (Z.shiftr nbits 24) 255) in *.
  set (d := (u32_as_f64 65535 / u32_as_f64 (Z.land nbits 16777215))%float).
  destruct (Z.ltb_spec s 29) as [Hlt|Hge].
  - rewrite (mul_loop_reaches_29 (Z.to_nat (29 - s))) by lia.
    rewrite div_loop_stops by lia. reflexivity.
  - rewrite mul_loop_stops by lia.
    rewrite (div_loop_reaches_29 (Z.to_nat (s - 29))) by lia.
    reflexivity.
Qed.

End DifficultyFacts.

Module TtlFacts.
Import Types Ttl.
Local Open Scope Z_scope.

(** C5 (counterexample): a block at depth [tip - h + 1 = 10] (tip 9,
    height 0) is not cached long: the claim's "equivalently, depth >= 10"
    does not hold. *)
Lemma ttl_depth_ten_is_short :
  ~ (ttl_by_depth (Some 0) 9 = TTL_LONG <-> (9 - 0 + 1 >= 10)%Z).
Proof.
  intros [_ H]. assert (H1 : (9 - 0 + 1 >= 10)%Z) by lia.
  specialize (H H1). vm_compute in H. discriminate H.
Qed.

(** C5 (amended): for a referenced height [h] not above the tip [best],
    the lifetime is [TTL_LONG] exactly when [best - h >= 10] (depth
    [best - h + 1 >= 11]), and [TTL_SHORT] otherwise; an unknown height gets
    [TTL_SHORT]. *)
Theorem ttl_by_depth_long_iff (h best : Z) :
  (0 <= h <= best)%Z -> (best < 2 ^ 64)%Z ->
  (ttl_by_depth (Some h) best = TTL_LONG <-> (best - h >= CONF_FINAL)%Z) /\
  (ttl_by_depth (Some h) best = TTL_SHORT <-> (best - h < CONF_FINAL)%Z) /\
  ttl_by_depth None best = TTL_SHORT.
Proof.
  intros Hh Hb. unfold ttl_by_depth, usize_sub.
  rewrite Z.mod_small by lia.
  unfold CONF_FINAL, TTL_LONG, TTL_SHORT.
  destruct (Z.leb_spec 10 (best - h)); repeat split; intros; lia.
Qed.

Lemma ttl_by_depth_long_iff_witness :
  ((0 <= 3 <= 20)%Z /\ (20 < 2 ^ 64)%Z) /\
  ((ttl_by_depth (Some 3) 20 = TTL_LONG <-> (20 - 3 >= CONF_FINAL)%Z) /\
   (ttl_by_depth (Some 3) 20 = TTL_SHORT <-> (20 - 3 < CONF_FINAL)%Z) /\
   ttl_by_depth None 20 = TTL_SHORT).
Proof.
  split; [split; vm_compute; [split; discriminate | reflexivity]|].
  apply (ttl_by_depth_long_iff 3 20); vm_compute; [split; discriminate | reflexivity].
Defined.

End TtlFacts.

Module OutspendFacts.
Import Types Ttl Outspend.
Local Open Scope Z_scope.

(** C10: an outpoint with no known spend is answered with the default
    [SpendingValue] ([spent: false], no [txid], [vin] or [status]) and the
    short lifetime; a found spend is answered with [spent: true] and all
    three fields present. *)
Theorem outspend_default_unless_spent
    (lookup_spend : OutPoint -> option SpendingInput) (best : Z) (op : OutPoint) :
  exists r, handle_outspend lookup_spend best op = Ok r /\
    (lookup_spend op = None <->
       r = {| body := SpendingValue_default; ttl := TTL_SHORT |}) /\
    (spent (body r) = true <-> lookup_spend op <> None) /\
    (spent (body r) = true <->
       (sv_txid (body r) <> None /\ sv_vin (body r) <> None /\ sv_status (body r) <> None)) /\
    (forall s, lookup_spend op = Some s ->
       body r = {| spent := true; sv_txid := Some (si_txid s); sv_vin := Some (si_vin s);
                   sv_status := Some (status_from (si_confirmed s)) |}).
Proof.
  unfold handle_outspend.
  destruct (lookup_spend op) as [sp|] eqn:E; eexists; (split; [reflexivity|]); simpl.
  - repeat split; try congruence.
    + intros H; unfold SpendingValue_from, SpendingValue_default in H; congruence.
    + intros s' Hs; inversion Hs; reflexivity.
  - repeat split; try congruence.
    + intros [H _]; exfalso; apply H; reflexivity.
Qed.

End OutspendFacts.

Module ScriptTypeFacts.
Import Types ScriptType.
Local Open Scope string_scope.

Ltac bool_facts :=
  repeat match goal with
  | H : (_ && _) = true |- _ => apply andb_prop in H; destruct H
  | H : (_ || _) = true |- _ => apply orb_prop in H; destruct H
  | H : negb _ = true |- _ => apply negb_true_iff in H
  | H : Z.eqb _ _ = true |- _ => apply Z.eqb_eq in H
  | H : Z.leb _ _ = true |- _ => apply Z.leb_le in H
  | H : Nat.eqb _ _ = true |- _ => apply Nat.eqb_eq in H
  | H : Nat.eqb _ _ = false |- _ => apply Nat.eqb_neq in H
  | H : Nat.leb _ _ = true |- _ => apply Nat.leb_le in H
  | H : Nat.ltb _ _ = true |- _ => apply Nat.ltb_lt in H
  end.

Lemma script_type_is_first_match (s : Script) :
  script_type s = script_type_in source_order s.
Proof.
  unfold script_type, script_type_in; simpl.
  repeat match goal with |- context [if ?b then _ else _] => destruct b end;
    reflexivity.
Qed.

Lemma source_order_complete (k : Kind) : In k source_order.
Proof. destruct k; simpl; tauto. Qed.

Lemma first_match_some (order : list Kind) (s : Script) (k : Kind) :
  first_match order s = Some k -> In k order /\ kind_test k s = true.
Proof.
  induction order as [|k' order IH]; simpl; [discriminate|].
  destruct (kind_test k' s) eqn:E.
  - intros H; inversion H; subst; auto.
  - intros H; destruct (IH H); auto.
Qed.

Lemma first_match_none (order : list Kind) (s : Script) :
  first_match order s = None <-> (forall k, In k order -> kind_test k s = false).
Proof.
  induction order as [|k' order IH]; simpl.
  - split; [intros _ k []|reflexivity].
  - destruct (kind_test k' s) eqn:E; split.
    + discriminate.
    + intros H; rewrite (H k') in E; [discriminate|left; reflexivity].
    + intros H k [<-|Hk]; [exact E|apply IH; assumption].
    + intros H; apply IH; intros k Hk; apply H; right; exact Hk.
Qed.

Lemma first_match_unique (order : list Kind) (s : Script) (k : Kind) :
  In k order -> kind_test k s = true ->
  (forall k', In k' order -> kind_test k' s = true -> k' = k) ->
  first_match order s = Some k.
Proof.
  induction order as [|k0 order IH]; simpl; [intros []|].
  intros Hin Hk Huniq.
  destruct (kind_test k0 s) eqn:E.
  - f_equal; apply Huniq; [left; reflexivity|exact E].
  - destruct Hin as [<-|Hin]; [congruence|].
    apply IH; auto.
Qed.

(** Two different shape checks accept the same script only when they are
    [op_return] and [provably_unspendable]. *)
Lemma shape_checks_exclusive (s : Script) (k1 k2 : Kind) :
  kind_test k1 s = true -> kind_test k2 s = true -> k1 <> k2 ->
  (k1 = KOpReturn /\ k2 = KProvablyUnspendable) \/
  (k1 = KProvablyUnspendable /\ k2 = KOpReturn).
Proof.
  intros H1 H2 Hne.
  destruct k1, k2;
    try (exfalso; apply Hne; reflexivity);
    try (left; split; reflexivity);
    try (right; split; reflexivity);
    exfalso; simpl in H1, H2;
    unfold is_provably_unspendable, is_empty, is_op_return, is_p2pk, is_p2pkh, is_p2sh, is_v0_p2wpkh,
      is_v0_p2wsh, is_v1_p2tr, is_anchor,
      unspendable_opcode, is_bare_multisig, OP_0, OP_PUSHBYTES_2,
      OP_PUSHBYTES_20, OP_PUSHBYTES_32, OP_PUSHBYTES_33, OP_PUSHBYTES_65,
      OP_PUSHNUM_1, OP_PUSHNUM_15, OP_RETURN, OP_DUP, OP_EQUAL, OP_EQUALVERIFY,
      OP_HASH160, OP_CHECKSIG, OP_CHECKMULTISIG in H1, H2;
    bool_facts; lia.
Qed.

(** Every [op_return] script is also [provably_unspendable]. *)
Lemma op_return_is_provably_unspendable (s : Script) :
  is_op_return s = true -> is_provably_unspendable s = true.
Proof.
  unfold is_op_return, is_provably_unspendable, is_empty, unspendable_opcode.
  intros H; bool_facts. rewrite H0.
  destruct (Nat.eqb_spec (length s) 0); [lia|]. reflexivity.
Qed.

(** The checks of the source with [provably_unspendable] run right after
    [empty]. *)
Definition unspendable_first_order : list Kind :=
  [KEmpty; KProvablyUnspendable; KOpReturn; KP2pk; KP2pkh; KP2sh; KV0P2wpkh;
   KV0P2wsh; KV1P2tr; KAnchor; KMultisig].

Lemma unspendable_first_order_perm : Permutation unspendable_first_order source_order.
Proof.
  unfold unspendable_first_order, source_order.
  apply perm_skip.
  exact (Permutation_middle
           [KOpReturn; KP2pk; KP2pkh; KP2sh; KV0P2wpkh; KV0P2wsh; KV1P2tr; KAnchor]
           [KMultisig] KProvablyUnspendable).
Qed.

(** C7 (counterexample): the one-byte script [OP_RETURN] passes both the
    [op_return] and the [provably_unspendable] checks, and running the
    checks in a permuted order changes the reported type. *)
Lemma op_return_script_two_shapes :
  is_op_return [0x6a%Z] = true /\ is_provably_unspendable [0x6a%Z] = true /\
  Permutation unspendable_first_order source_order /\
  script_type [0x6a%Z] = "op_return" /\
  script_type_in unspendable_first_order [0x6a%Z] = "provably_unspendable".
Proof.
  split; [reflexivity|]. split; [reflexivity|].
  split; [exact unspendable_first_order_perm|].
  split; reflexivity.
Qed.

(** C7 (amended): [script_type] reports the first accepting check of the
    chain; two different checks accept the same script only for
    [op_return] and [provably_unspendable], and every [op_return] script is
    [provably_unspendable]; on every other script any permutation of the
    checks reports the same type. *)
Theorem script_type_order_matters_only_for_op_return :
  (forall s, script_type s = script_type_in source_order s) /\
  (forall s k1 k2, kind_test k1 s = true -> kind_test k2 s = true -> k1 <> k2 ->
     (k1 = KOpReturn /\ k2 = KProvablyUnspendable) \/
     (k1 = KProvablyUnspendable /\ k2 = KOpReturn)) /\
  (forall s, is_op_return s = true -> is_provably_unspendable s = true) /\
  (forall order s, Permutation order source_order -> is_op_return s = false ->
     script_type_in order s = script_type s).
Proof.
  split; [exact script_type_is_first_match|].
  split; [exact shape_checks_exclusive|].
  split; [exact op_return_is_provably_unspendable|].
  intros order s Hperm Hop.
  rewrite script_type_is_first_match. unfold script_type_in.
  destruct (first_match source_order s) as [k|] eqn:E.
  - destruct (first_match_some _ _ _ E) as [_ Hk].
    rewrite (first_match_unique order s k).
    + reflexivity.
    + apply (Permutation_in k (Permutation_sym Hperm)), source_order_complete.
    + exact Hk.
    + intros k' _ Hk'.
      destruct (Kind_eq_dec k' k) as [|Hne]; [assumption|].
      destruct (shape_checks_exclusive s k' k Hk' Hk Hne) as [[-> _]|[_ ->]];
        simpl in *; congruence.
  - rewrite (proj2 (first_match_none order s)); [reflexivity|].
    intros k _. apply (proj1 (first_match_none source_order s) E), source_order_complete.
Qed.

Lemma script_type_order_matters_only_for_op_return_witness :
  (Permutation unspendable_first_order source_order /\ is_op_return [0x00%Z; 0x14%Z] = false) /\
  script_type_in unspendable_first_order [0x00%Z; 0x14%Z] = script_type [0x00%Z; 0x14%Z].
Proof.
  split; [split; [exact unspendable_first_order_perm|reflexivity]|].
  apply (proj2 (proj2 (proj2 script_type_order_matters_only_for_op_return))).
  - exact unspendable_first_order_perm.
  - reflexivity.
Defined.

End ScriptTypeFacts.

Module TxTestFacts.
Import Types TxTest.
Local Open Scope Z_scope.

Lemma from_hex_zeros (k : nat) : from_hex (zeros_hex k) = Some (repeat 0 k).
Proof.
  unfold zeros_hex; induction k as [|k IH]; [reflexivity|].
  replace (2 * S k)%nat with (S (S (2 * k))) by lia.
  cbn -[Nat.mul]. rewrite IH. reflexivity.
Qed.

Lemma from_hex_length (s : RString) (b : list Z) :
  from_hex s = Some b -> length s = (2 * length b)%nat.
Proof.
  revert b; induction s as [[|hi [|lo rest]] IH] using (induction_ltof1 _ (@length Z));
    intros b H; simpl in H.
  - inversion H; reflexivity.
  - discriminate.
  - destruct (hex_val hi), (hex_val lo), (from_hex rest) as [t|] eqn:E; try discriminate.
    inversion H; subst. simpl.
    rewrite (IH rest) with (b := t); [lia| |exact E].
    unfold ltof; simpl; lia.
Qed.

Lemma check_item_ok (i : nat) (s : RString) :
  check_item i s = Ok tt <->
  (120 <= str_len s < 800000 /\ exists b, from_hex s = Some b).
Proof.
  unfold check_item.
  destruct (Z.leb_spec 120 (str_len s)), (Z.ltb_spec (str_len s) 800000); simpl;
    try (split; [discriminate|intros [Hr _]; lia]).
  destruct (from_hex s) as [b|]; split.
  - intros _; split; [lia|exists b; reflexivity].
  - reflexivity.
  - discriminate.
  - intros [_ [b' Hb]]; discriminate.
Qed.

Lemma check_item_err (i : nat) (s : RString) :
  check_item i s <> Ok tt ->
  exists e, check_item i s = Err e /\ he_status e = BAD_REQUEST /\
    (he_msg e = MsgInvalidTxSize i \/ he_msg e = MsgInvalidTxHex i).
Proof.
  unfold check_item.
  destruct (negb _); [intros _; eexists; split; [reflexivity|simpl; auto]|].
  destruct (from_hex s); [intros H; exfalso; apply H; reflexivity|].
  intros _; eexists; split; [reflexivity|simpl; auto].
Qed.

Lemma check_item_index (i j : nat) (s : RString) :
  check_item i s = Ok tt <-> check_item j s = Ok tt.
Proof. rewrite !check_item_ok. reflexivity. Qed.

Lemma pre_checks_all_ok (l : list RString) (i : nat) :
  (forall m s, nth_error l m = Some s -> check_item m s = Ok tt) ->
  pre_checks i l = Ok tt.
Proof.
  revert i; induction l as [|s l IH]; intros i H; [reflexivity|].
  simpl. rewrite (proj1 (check_item_index 0 i s)) by (apply (H 0%nat); reflexivity).
  simpl. apply IH. intros m s' Hm.
  apply (proj1 (check_item_index (S m) m s')), (H (S m)); exact Hm.
Qed.

Lemma pre_checks_first_fail (l : list RString) :
  forall (i n : nat) (s : RString),
  nth_error l n = Some s ->
  (forall m s', (m < n)%nat -> nth_error l m = Some s' -> check_item m s' = Ok tt) ->
  pre_checks i l = _ <- check_item (i + n) s ;; pre_checks (S (i + n)) (skipn (S n) l).
Proof.
  induction l as [|s0 l IH]; intros i n s Hn Hbefore; [destruct n; discriminate|].
  destruct n as [|n].
  - simpl in Hn. inversion Hn; subst. rewrite Nat.add_0_r. reflexivity.
  - simpl. rewrite (proj1 (check_item_index 0 i s0)) by (apply (Hbefore 0%nat); [lia|reflexivity]).
    simpl. rewrite (IH (S i) n s Hn).
    + replace (S i + n)%nat with (i + S n)%nat by lia. reflexivity.
    + intros m s' Hm Hs'. apply (proj1 (check_item_index (S m) m s')).
      apply (Hbefore (S m)); [lia|exact Hs'].
Qed.
Lemma str_len_zeros (k : nat) : str_len (zeros_hex k) = 2 * Z.of_nat k.
Proof. unfold str_len, zeros_hex. rewrite repeat_length. lia. Qed.

(** C3 (amended): an item passes the pre-check exactly when its hex string
    has 120 to 799,999 characters and decodes as hex, i.e. it decodes to
    60 to 399,999 bytes (the bound is on the string length, not on weight
    units); the first failing item, in list order, fails the whole call
    with a [BAD_REQUEST] naming its index, whatever the node would answer;
    a list whose items all pass is forwarded as it is; a one-byte payload is
    refused.  All of this is once the list has at most 25 items and the
    [maxfeerate] parameter is absent or parses: a longer list is refused
    first with a [BAD_REQUEST], whatever the parameter, and then a
    [maxfeerate] that does not parse fails the call with its error. *)
Theorem txs_test_pre_check_behaviour :
  (forall i s, check_item i s = Ok tt <->
     (120 <= str_len s < 800000 /\
      exists b, from_hex s = Some b /\ 60 <= Z.of_nat (length b) <= 399999)) /\
  (forall (A : Type) (accept accept' : list RString -> option float -> result A HttpError)
          (l : list RString) (f : option float) (n : nat) (s : RString),
     (length l <= 25)%nat -> nth_error l n = Some s -> check_item n s <> Ok tt ->
     (forall m s', (m < n)%nat -> nth_error l m = Some s' -> check_item m s' = Ok tt) ->
     exists e, handle_txs_test accept l (Ok f) = Err e /\
       handle_txs_test accept' l (Ok f) = Err e /\
       he_status e = BAD_REQUEST /\
       (he_msg e = MsgInvalidTxSize n \/ he_msg e = MsgInvalidTxHex n)) /\
  (forall (A : Type) (accept : list RString -> option float -> result A HttpError)
          (l : list RString) (f : option float),
     (length l <= 25)%nat ->
     (forall m s, nth_error l m = Some s -> check_item m s = Ok tt) ->
     handle_txs_test accept l (Ok f) = accept l f) /\
  (forall (A : Type) (accept : list RString -> option float -> result A HttpError)
          (f : option float),
     handle_txs_test accept [[48; 48]] (Ok f) = Err (http_error_from (MsgInvalidTxSize 0))) /\
  (forall (A : Type) (accept : list RString -> option float -> result A HttpError)
          (l : list RString) (maxfeerate : result (option float) HttpError),
     (25 < length l)%nat ->
     handle_txs_test accept l maxfeerate = Err (http_error_from MsgTooManyTxs) /\
     he_status (http_error_from MsgTooManyTxs) = BAD_REQUEST) /\
  (forall (A : Type) (accept : list RString -> option float -> result A HttpError)
          (l : list RString) (e : HttpError),
     (length l <= 25)%nat -> handle_txs_test accept l (Err e) = Err e).
Proof.
  split; [|split; [|split; [|split; [|split]]]].
  - intros i s. rewrite check_item_ok. split.
    + intros [Hr [b Hb]]. pose proof (from_hex_length s b Hb) as Hl.
      unfold str_len in Hr. rewrite Hl in Hr.
      split; [unfold str_len; lia|exists b; split; [exact Hb|lia]].
    + intros [Hr [b [Hb _]]]. split; [exact Hr|exists b; exact Hb].
  - intros A accept accept' l f n s Hlen Hn Hfail Hbefore.
    destruct (check_item_err n s Hfail) as [e [He [Hst Hmsg]]].
    exists e. unfold handle_txs_test.
    replace (Nat.ltb 25 (length l)) with false by (symmetry; apply Nat.ltb_ge; lia).
    simpl. rewrite (pre_checks_first_fail l 0 n s Hn Hbefore). simpl. rewrite He.
    repeat split; assumption.
  - intros A accept l f Hlen Hall. unfold handle_txs_test.
    replace (Nat.ltb 25 (length l)) with false by (symmetry; apply Nat.ltb_ge; lia).
    simpl. rewrite (pre_checks_all_ok l 0 Hall). reflexivity.
  - intros A accept f. reflexivity.
  - intros A accept l mf Hlen. unfold handle_txs_test.
    replace (Nat.ltb 25 (length l)) with true by (symmetry; apply Nat.ltb_lt; exact Hlen).
    split; reflexivity.
  - intros A accept l e Hlen. unfold handle_txs_test.
    replace (Nat.ltb 25 (length l)) with false by (symmetry; apply Nat.ltb_ge; exact Hlen).
    reflexivity.
Qed.

Lemma txs_test_pre_check_behaviour_witness :
  ((length [[48; 48]] <= 25)%nat /\ nth_error [[48; 48]] 0 = Some [48; 48] /\
   check_item 0 [48; 48] <> Ok tt) /\
  exists e, handle_txs_test (fun (_ : list RString) (_ : option float) => Ok tt)
              [[48; 48]] (Ok None) = Err e /\
    handle_txs_test (fun (_ : list RString) (_ : option float) => Ok tt) [[48; 48]] (Ok None)
      = Err e /\
    he_status e = BAD_REQUEST /\
    (he_msg e = MsgInvalidTxSize 0 \/ he_msg e = MsgInvalidTxHex 0).
Proof.
  split; [split; [simpl; lia|split; [reflexivity|vm_compute; discriminate]]|].
  apply (proj1 (proj2 txs_test_pre_check_behaviour) unit
           (fun _ _ => Ok tt) (fun _ _ => Ok tt) [[48; 48]] None 0%nat [48; 48]).
  - simpl; lia.
  - reflexivity.
  - vm_compute; discriminate.
  - intros m s' Hm; lia.
Defined.

End TxTestFacts.

Module AddressCheckFacts.
Import Types AddressCheck.

Section WithParser.
Variable address_from_str : list Z -> option Address.
Variable sha256 : Script -> FullHash.

(** C4: the conversion succeeds exactly for an address that parses and
    whose network is the configured one, or is [Testnet] while the
    configured network is [Regtest], [Signet] or [Testnet4]; the hash is the
    SHA-256 of the address's scriptPubKey; a parsed address on another
    network is refused with the invalid-network [BAD_REQUEST]. *)
Theorem address_to_scripthash_network_check (addr : list Z) (network : Network) :
  (forall h, address_to_scripthash address_from_str sha256 addr network = Ok h <->
     exists a, address_from_str addr = Some a /\
       (network_from (addr_network a) = network \/
        (network_from (addr_network a) = Testnet /\
         (network = Regtest \/ network = Signet \/ network = Testnet4))) /\
       h = sha256 (addr_script_pubkey a)) /\
  (forall a, address_from_str addr = Some a ->
     ~ (network_from (addr_network a) = network \/
        (network_from (addr_network a) = Testnet /\
         (network = Regtest \/ network = Signet \/ network = Testnet4))) ->
     address_to_scripthash address_from_str sha256 addr network =
       Err {| he_status := BAD_REQUEST; he_msg := MsgInvalidNetwork |}).
Proof.
  unfold address_to_scripthash, compute_script_hash, is_expected_net.
  split.
  - intros h. destruct (address_from_str addr) as [a|];
      [|split; [discriminate|intros [a [Ha _]]; discriminate]].
    split.
    + destruct (addr_network a) eqn:Ea, network; simpl; intros H;
        try discriminate H; inversion H; subst; exists a;
        (split; [reflexivity|]); rewrite Ea; simpl; (split; [tauto|reflexivity]).
    + intros [a' [Ha' [Hn Hh]]]; inversion Ha'; subst.
      destruct (addr_network a'), network; simpl in *; try reflexivity;
        exfalso; intuition discriminate.
  - intros a Ha Hn. rewrite Ha.
    destruct (addr_network a), network; simpl in *; try reflexivity;
      exfalso; apply Hn; tauto.
Qed.

End WithParser.

Lemma address_to_scripthash_network_check_witness :
  (testnet_parser [] = Some {| addr_network := BTestnet; addr_script_pubkey := [0x51%Z] |} /\
   ~ (network_from BTestnet = Bitcoin \/
      (network_from BTestnet = Testnet /\
       (Bitcoin = Regtest \/ Bitcoin = Signet \/ Bitcoin = Testnet4)))) /\
  address_to_scripthash testnet_parser length_hash [] Bitcoin =
    Err {| he_status := BAD_REQUEST; he_msg := MsgInvalidNetwork |}.
Proof.
  split; [split; [reflexivity|simpl; intuition discriminate]|].
  apply (proj2 (address_to_scripthash_network_check testnet_parser length_hash [] Bitcoin)
           {| addr_network := BTestnet; addr_script_pubkey := [0x51%Z] |}).
  - reflexivity.
  - simpl; intuition discriminate.
Defined.

End AddressCheckFacts.

Module HistoryFacts.
Import Types Ttl TxValues History SpecBackend.

(** The cursor cases of [merged_txs]: an unknown cursor fails with 422; a
    confirmed cursor at height [h] skips the mempool and asks the chain for
    the page after [(txid, h)]; a mempool cursor asks the mempool for the
    page after it, and the chain for an unconstrained page when that
    mempool page is not empty. *)
Lemma merged_txs_cursor_cases (q : Backend) mp cp (max_txs : nat) (t : Txid) :
  (find_txid q t = LNone -> merged_txs q mp cp max_txs (Some t) = Err after_txid_not_found) /\
  (forall h, find_txid q t = LChain h -> (0 < max_txs)%nat ->
     merged_txs q mp cp max_txs (Some t) =
       (chain <- collect (cp (Some t) (Some h) max_txs) ;;
        Ok (map (fun '(tx, blockid) => (tx, Some blockid)) chain))) /\
  (find_txid q t = LMempool -> mp (Some t) max_txs <> [] ->
     (length (mp (Some t) max_txs) < max_txs)%nat ->
     merged_txs q mp cp max_txs (Some t) =
       (chain <- collect (cp None None (max_txs - length (mp (Some t) max_txs))) ;;
        Ok (map (fun tx => (tx, None)) (mp (Some t) max_txs) ++
            map (fun '(tx, blockid) => (tx, Some blockid)) chain))).
Proof.
  unfold merged_txs. split; [|split].
  - intros H; rewrite H; reflexivity.
  - intros h H Hpos; rewrite H; simpl.
    replace (Nat.ltb 0 max_txs) with true by (symmetry; apply Nat.ltb_lt; exact Hpos).
    rewrite Nat.sub_0_r. reflexivity.
  - intros H Hne Hlt; rewrite H.
    rewrite length_map.
    replace (Nat.ltb (length (mp (Some t) max_txs)) max_txs) with true
      by (symmetry; apply Nat.ltb_lt; exact Hlt).
    destruct (mp (Some t) max_txs) as [|tx rest]; [congruence|]. reflexivity.
Qed.

(** The slip: a mempool cursor whose mempool page is empty is passed on to
    the chain history, with no start height. *)
Lemma merged_txs_mempool_cursor_empty_page (q : Backend) mp cp (max_txs : nat) (t : Txid) :
  find_txid q t = LMempool -> mp (Some t) max_txs = [] -> (0 < max_txs)%nat ->
  merged_txs q mp cp max_txs (Some t) =
    (chain <- collect (cp (Some t) None max_txs) ;;
     Ok (map (fun '(tx, blockid) => (tx, Some blockid)) chain)).
Proof.
  intros H Hempty Hpos. unfold merged_txs. rewrite H, Hempty. simpl.
  replace (Nat.ltb 0 max_txs) with true by (symmetry; apply Nat.ltb_lt; exact Hpos).
  rewrite Nat.sub_0_r. reflexivity.
Qed.

Lemma collect_length {A E} (rs : list (result A E)) (l : list A) :
  collect rs = Ok l -> length l = length rs.
Proof.
  revert l; induction rs as [|r rs IH]; intros l H; simpl in H.
  - inversion H; reflexivity.
  - destruct r as [a|e]; [|discriminate]. simpl in H.
    destruct (collect rs) as [l'|e]; [|discriminate]. simpl in H.
    inversion H; subst. simpl. f_equal. apply IH. reflexivity.
Qed.

(** The shape of the merged list: mempool entries without a block first,
    then chain entries with their block, the chain part only when the
    mempool part is shorter than [max_txs], and at most [max_txs] entries
    when each page query returns at most the number it is asked for. *)
Lemma merged_txs_shape (q : Backend) mp cp (max_txs : nat) (after : option Txid) txs :
  (forall a n, (length (mp a n) <= n)%nat) ->
  (forall a h n, (length (cp a h n) <= n)%nat) ->
  merged_txs q mp cp max_txs after = Ok txs ->
  (length txs <= max_txs)%nat /\
  exists m c, txs = map (fun tx => (tx, None)) m ++
                    map (fun '(tx, blockid) => (tx, Some blockid)) c /\
              (c <> [] -> (length m < max_txs)%nat).
Proof.
  intros Hmp Hcp.
  assert (Hcore : forall m cbh, (length m <= max_txs)%nat ->
    (if Nat.ltb (length (map (fun tx => (tx, @None BlockId)) m)) max_txs then
       chain <- collect (cp (match map (fun tx => (tx, @None BlockId)) m with
                             | [] => after | _ :: _ => None end)
                            cbh (max_txs - length (map (fun tx => (tx, @None BlockId)) m))) ;;
       Ok (map (fun tx => (tx, None)) m ++
           map (fun '(tx, blockid) => (tx, Some blockid)) chain)
     else Ok (map (fun tx => (tx, None)) m)) = Ok txs ->
    (length txs <= max_txs)%nat /\
    exists m c, txs = map (fun tx => (tx, None)) m ++
                      map (fun '(tx, blockid) => (tx, Some blockid)) c /\
                (c <> [] -> (length m < max_txs)%nat)).
  { intros m cbh Hm. rewrite !length_map.
    destruct (Nat.ltb_spec (length m) max_txs) as [Hlt|Hge].
    - destruct (collect _) as [chain|e] eqn:Ec; simpl; [|discriminate].
      intros H; inversion H; subst.
      pose proof (collect_length _ _ Ec) as Hc.
      split.
      + rewrite length_app, !length_map, Hc.
        match goal with |- context [length (cp ?a ?b ?n)] => specialize (Hcp a b n) end.
        lia.
      + exists m, chain; split; [reflexivity|intros _; exact Hlt].
    - intros H; inversion H; subst. split; [rewrite length_map; exact Hm|].
      exists m, []; split; [rewrite app_nil_r; reflexivity|congruence]. }
  unfold merged_txs.
  destruct (match after with Some t => find_txid q t | None => LMempool end) as [|h|].
  - intros H; exact (Hcore _ None (Hmp _ _) H).
  - intros H; exact (Hcore [] (Some h) (Nat.le_0_l _) H).
  - discriminate.
Qed.

(** C1 (the slip at scenario S4): [T_m] (txid 200) is found in the mempool
    and its mempool page on scripthash 7 is empty, so the handler passes
    [after_txid = T_m] to the chain history, whose page anchored at [T_m]
    is empty; the chain page Rule M asks for, unconstrained by the txid,
    holds [T_c]. *)
Theorem mempool_cursor_reaches_chain_history :
  find_txid (backend_of s4_world) 200%Z = LMempool /\
  mempool_history (backend_of s4_world) 7%Z (Some 200%Z) 25 = [] /\
  merged_txs (backend_of s4_world) (mempool_history (backend_of s4_world) 7%Z)
    (chain_history (backend_of s4_world) 7%Z) 25 (Some 200%Z)
  = (chain <- collect (chain_history (backend_of s4_world) 7%Z (Some 200%Z) None 25) ;;
     Ok (map (fun '(tx, blockid) => (tx, Some blockid)) chain)) /\
  chain_history (backend_of s4_world) 7%Z (Some 200%Z) None 25 = [] /\
  chain_history (backend_of s4_world) 7%Z None None 25 = [Ok (T_c, block5)] /\
  body_txids (s4_txs 25 (Some 200%Z)) = Some [].
Proof.
  split; [reflexivity|]. split; [reflexivity|].
  split; [apply merged_txs_mempool_cursor_empty_page; [reflexivity|reflexivity|lia]|].
  repeat split; reflexivity.
Qed.

(** C2 (scenario S4 on the code): the first call returns [[T_m; T_c]],
    [T_m] unconfirmed and [T_c] confirmed at height 5; the second call,
    with [after_txid = T_m], returns nothing instead of [[T_c]]. *)
Theorem s4_merged_history :
  body_txids (s4_txs 25 None) = Some [200%Z; 100%Z] /\
  (match s4_txs 25 None with
   | Ok r => map TxValues.status (Outspend.body r)
   | Err _ => []
   end) = [Some (status_from None); Some (status_from (Some block5))] /\
  body_txids (s4_txs 25 (Some 200%Z)) = Some [].
Proof. split; [|split]; vm_compute; reflexivity. Qed.

End HistoryFacts.

Module MultiFacts.
Import Types TxValues History.
Local Open Scope Z_scope.

Lemma filter_map_filter {A B} (f : A -> option B) (l : list A) :
  filter_map f (filter (fun x => match f x with Some _ => true | None => false end) l) =
  filter_map f l.
Proof.
  induction l as [|x l IH]; [reflexivity|]. simpl.
  destruct (f x) eqn:E; simpl; rewrite ?E, IH; reflexivity.
Qed.

Lemma parse_script_hashes_subset (to_scripthash : list Z -> result FullHash HttpError)
    (strs : list (list Z)) :
  (length strs <= MULTI_ADDRESS_LIMIT)%nat ->
  parse_script_hashes to_scripthash false (Ok strs) =
    parse_script_hashes to_scripthash false
      (Ok (filter (fun s => match to_scripthash s with Ok _ => true | Err _ => false end) strs)).
Proof.
  intros Hlen. unfold parse_script_hashes. simpl.
  pose proof (filter_length_le
                (fun s => match to_scripthash s with Ok _ => true | Err _ => false end) strs) as Hf.
  replace (Nat.ltb MULTI_ADDRESS_LIMIT (length strs)) with false
    by (symmetry; apply Nat.ltb_ge; exact Hlen).
  replace (Nat.ltb MULTI_ADDRESS_LIMIT (length (filter _ strs))) with false
    by (symmetry; apply Nat.ltb_ge; lia).
  f_equal.
  rewrite <- (filter_map_filter (fun s => result_ok (to_scripthash s)) strs).
  f_equal. apply filter_ext. intros s. unfold result_ok. destruct (to_scripthash s); reflexivity.
Qed.

(** C8: in the multi-address arms, the elements that do not convert to a
    scripthash are dropped: for a list within the 300-element limit, the
    answer is the one for the list of the elements that convert, and a list
    of which no element converts is answered as the empty list. *)
Theorem multi_address_drops_malformed
    transaction_sigop_count get_tx_fee lookup_txo (q : Backend)
    (to_scripthash : list Z -> result FullHash HttpError) (strs : list (list Z))
    (max_txs : nat) (after_txid last_seen_txid : option Txid) (summary_max : nat) :
  (length strs <= MULTI_ADDRESS_LIMIT)%nat ->
  parse_script_hashes to_scripthash false (Ok strs) =
    Ok (filter_map (fun s => result_ok (to_scripthash s)) strs) /\
  handle_multi_txs transaction_sigop_count get_tx_fee lookup_txo q to_scripthash false
    (Ok strs) max_txs after_txid =
  handle_multi_txs transaction_sigop_count get_tx_fee lookup_txo q to_scripthash false
    (Ok (filter (fun s => match to_scripthash s with Ok _ => true | Err _ => false end) strs))
    max_txs after_txid /\
  handle_multi_summary q to_scripthash false (Ok strs) last_seen_txid summary_max =
  handle_multi_summary q to_scripthash false
    (Ok (filter (fun s => match to_scripthash s with Ok _ => true | Err _ => false end) strs))
    last_seen_txid summary_max /\
  ((forall s, In s strs -> exists e, to_scripthash s = Err e) ->
   handle_multi_txs transaction_sigop_count get_tx_fee lookup_txo q to_scripthash false
     (Ok strs) max_txs after_txid =
   handle_multi_txs transaction_sigop_count get_tx_fee lookup_txo q to_scripthash false
     (Ok []) max_txs after_txid /\
   handle_multi_summary q to_scripthash false (Ok strs) last_seen_txid summary_max =
   handle_multi_summary q to_scripthash false (Ok []) last_seen_txid summary_max).
Proof.
  intros Hlen.
  pose proof (parse_script_hashes_subset to_scripthash strs Hlen) as Hsub.
  split; [unfold parse_script_hashes; simpl;
          replace (Nat.ltb MULTI_ADDRESS_LIMIT (length strs)) with false
            by (symmetry; apply Nat.ltb_ge; exact Hlen); reflexivity|].
  split; [unfold handle_multi_txs; rewrite Hsub; reflexivity|].
  split; [unfold handle_multi_summary; rewrite Hsub; reflexivity|].
  intros Hbad.
  assert (Hnil : filter (fun s => match to_scripthash s with Ok _ => true | Err _ => false end) strs
                 = []).
  { clear Hsub Hlen. induction strs as [|s strs IH]; [reflexivity|]. simpl.
    destruct (Hbad s (or_introl eq_refl)) as [e ->].
    apply IH. intros s' Hs'. apply Hbad. right. exact Hs'. }
  unfold handle_multi_txs, handle_multi_summary. rewrite Hsub, Hnil. split; reflexivity.
Qed.

Lemma multi_address_drops_malformed_witness :
  (length [[7]; [1; 2]] <= MULTI_ADDRESS_LIMIT)%nat /\
  parse_script_hashes
    (fun s => match s with [7] => Ok 7 | _ => Err (http_error_from MsgInvalidAddress) end)
    false (Ok [[7]; [1; 2]]) = Ok [7] /\
  handle_multi_txs SpecBackend.s4_sigops SpecBackend.s4_fee SpecBackend.s4_txo
    (SpecBackend.backend_of SpecBackend.s4_world)
    (fun s => match s with [7] => Ok 7 | _ => Err (http_error_from MsgInvalidAddress) end)
    false (Ok [[7]; [1; 2]]) 25 None =
  handle_multi_txs SpecBackend.s4_sigops SpecBackend.s4_fee SpecBackend.s4_txo
    (SpecBackend.backend_of SpecBackend.s4_world)
    (fun s => match s with [7] => Ok 7 | _ => Err (http_error_from MsgInvalidAddress) end)
    false (Ok [[7]]) 25 None.
Proof.
  pose proof (multi_address_drops_malformed
    SpecBackend.s4_sigops SpecBackend.s4_fee SpecBackend.s4_txo
    (SpecBackend.backend_of SpecBackend.s4_world)
    (fun s => match s with [7] => Ok 7 | _ => Err (http_error_from MsgInvalidAddress) end)
    [[7]; [1; 2]] 25 None None 25) as H.
  assert (Hlen : (length [[7]; [1; 2]] <= MULTI_ADDRESS_LIMIT)%nat)
    by (vm_compute; lia).
  destruct (H Hlen) as [Hp [Ht _]].
  split; [exact Hlen|]. split; [exact Hp|]. exact Ht.
Defined.

End MultiFacts.

Module PrepareFacts.
Import Types TxValues.
Local Open Scope Z_scope.

Lemma filter_map_concat {A B} (f : A -> option B) (l : list A) :
  filter_map f l = concat (map (fun x => match f x with Some y => [y] | None => [] end) l).
Proof.
  induction l as [|x l IH]; [reflexivity|]. simpl. rewrite IH. destruct (f x); reflexivity.
Qed.

Lemma enumerate_from_in {A} (k : Z) (xs : list A) (x : A) :
  In x xs -> exists i, In (i, x) (enumerate_from k xs).
Proof.
  revert k. induction xs as [|y xs IH]; intros k Hin; [destruct Hin|].
  destruct Hin as [<-|Hin].
  - exists k. left. reflexivity.
  - destruct (IH (k + 1) Hin) as [i Hi]. exists i. right. exact Hi.
Qed.

Lemma enumerate_from_in_inv {A} (k : Z) (xs : list A) (i : Z) (x : A) :
  In (i, x) (enumerate_from k xs) -> In x xs.
Proof.
  revert k. induction xs as [|y xs IH]; intros k Hin; [destruct Hin|].
  destruct Hin as [Heq|Hin].
  - injection Heq as _ ->. left. reflexivity.
  - right. exact (IH (k + 1) Hin).
Qed.

Lemma extract_prevouts_missing txos ins i txin :
  In (i, txin) ins -> has_prevout txin = true -> txos (previous_output txin) = None ->
  exists e, extract_prevouts_from txos ins = Err e.
Proof.
  induction ins as [|[j t] ins IH]; intros Hin Hp Hn; [destruct Hin|].
  simpl. destruct Hin as [Heq|Hin].
  - injection Heq as -> ->. rewrite Hp, Hn. eexists. reflexivity.
  - destruct (IH Hin Hp Hn) as [e He].
    destruct (has_prevout t); [|exists e; exact He].
    destruct (txos (previous_output t)); [|eexists; reflexivity].
    rewrite He. exists e. reflexivity.
Qed.

Lemma extract_prevouts_found txos ins :
  (forall i txin, In (i, txin) ins -> has_prevout txin = true ->
     txos (previous_output txin) <> None) ->
  exists p, extract_prevouts_from txos ins = Ok p.
Proof.
  induction ins as [|[j t] ins IH]; intros Hall; [exists []; reflexivity|].
  simpl.
  destruct IH as [p Hp].
  { intros i txin Hin. apply (Hall i txin). right. exact Hin. }
  destruct (has_prevout t) eqn:Ht; [|exists p; exact Hp].
  destruct (txos (previous_output t)) as [o|] eqn:Ho.
  - rewrite Hp. exists ((j, o) :: p). reflexivity.
  - exfalso. exact (Hall j t (or_introl eq_refl) Ht Ho).
Qed.

Lemma outpoint_eqb_refl op : outpoint_eqb op op = true.
Proof. unfold outpoint_eqb. rewrite !Z.eqb_refl. reflexivity. Qed.

Lemma lookup_txos_requested lookup_txo outpoints op :
  In op outpoints -> lookup_txos lookup_txo outpoints op = lookup_txo op.
Proof.
  intros Hin. unfold lookup_txos.
  replace (existsb (outpoint_eqb op) outpoints) with true; [reflexivity|].
  symmetry. apply existsb_exists. exists op. split; [exact Hin|apply outpoint_eqb_refl].
Qed.

Lemma prevout_requested (txs : list (Transaction * option BlockId)) tx b txin :
  In (tx, b) txs -> In txin (input tx) -> has_prevout txin = true ->
  In (previous_output txin)
     (flat_map (fun '(tx, _) => map previous_output (filter has_prevout (input tx))) txs).
Proof.
  intros Htx Hin Hp. apply in_flat_map. exists (tx, b). split; [exact Htx|].
  apply in_map. apply filter_In. split; assumption.
Qed.

(** C9: [prepare_txs] returns a list for every input (it has no error
    case); that list is, in the input order, the values of the
    transactions whose [TransactionValue::new] succeeds over the outputs
    looked up for all the requested prevouts; a transaction with an input
    whose prevout is not found yields an error there, so it is left out;
    a transaction whose prevouts are all found and whose sigops are
    counted yields a value with its own txid, that sigop count and the
    status of its block. *)
Theorem prepare_txs_keeps_convertible
    transaction_sigop_count get_tx_fee lookup_txo
    (txs : list (Transaction * option BlockId)) :
  let txos := lookup_txos lookup_txo
      (flat_map (fun '(tx, _) => map previous_output (filter has_prevout (input tx))) txs) in
  prepare_txs transaction_sigop_count get_tx_fee lookup_txo txs =
    concat (map (fun '(tx, b) =>
                   match TransactionValue_new transaction_sigop_count get_tx_fee tx b txos with
                   | Ok v => [v]
                   | Err _ => []
                   end) txs) /\
  (forall tx b txin, In (tx, b) txs -> In txin (input tx) -> has_prevout txin = true ->
     lookup_txo (previous_output txin) = None ->
     exists e, TransactionValue_new transaction_sigop_count get_tx_fee tx b txos = Err e) /\
  (forall tx b, In (tx, b) txs ->
     (forall txin, In txin (input tx) -> has_prevout txin = true ->
        lookup_txo (previous_output txin) <> None) ->
     exists prevouts, extract_tx_prevouts tx txos = Ok prevouts /\
       forall n, transaction_sigop_count tx prevouts = Some n ->
         exists v, TransactionValue_new transaction_sigop_count get_tx_fee tx b txos = Ok v /\
           tv_txid v = txid tx /\ sigops v = n /\ status v = Some (status_from b)).
Proof.
  intros txos. split; [|split].
  - unfold prepare_txs. fold txos. rewrite filter_map_concat. f_equal.
    apply map_ext. intros [tx b]. unfold result_ok.
    destruct (TransactionValue_new _ _ tx b txos); reflexivity.
  - intros tx b txin Htx Hin Hp Hn.
    destruct (enumerate_from_in 0 (input tx) txin Hin) as [i Hi].
    assert (Hn' : txos (previous_output txin) = None).
    { unfold txos. rewrite lookup_txos_requested; [exact Hn|].
      exact (prevout_requested txs tx b txin Htx Hin Hp). }
    destruct (extract_prevouts_missing txos _ i txin Hi Hp Hn') as [e He].
    exists e. unfold TransactionValue_new, extract_tx_prevouts. rewrite He. reflexivity.
  - intros tx b Htx Hall.
    destruct (extract_prevouts_found txos (enumerate_from 0 (input tx))) as [p Hp].
    { intros i txin Hi Hpv. unfold txos.
      pose proof (enumerate_from_in_inv 0 (input tx) i txin Hi) as Hin.
      rewrite lookup_txos_requested; [exact (Hall txin Hin Hpv)|].
      exact (prevout_requested txs tx b txin Htx Hin Hpv). }
    exists p. split; [exact Hp|].
    intros n Hs. unfold TransactionValue_new, extract_tx_prevouts. rewrite Hp. simpl.
    rewrite Hs. eexists. split; [reflexivity|]. repeat split.
Qed.

Lemma prepare_txs_keeps_convertible_witness :
  map tv_txid
    (prepare_txs SpecBackend.s4_sigops SpecBackend.s4_fee SpecBackend.s4_txo
       [({| txid := 300; input := [{| previous_output := {| op_txid := 1; op_vout := 0 |};
                                        sequence := 0 |}];
            output := [] |}, None);
        ({| txid := 301; input := [{| previous_output := {| op_txid := 0; op_vout := 4294967295 |};
                                        sequence := 0 |}];
            output := [] |}, Some SpecBackend.block5)]) = [301] /\
  exists e, TransactionValue_new SpecBackend.s4_sigops SpecBackend.s4_fee
    {| txid := 300; input := [{| previous_output := {| op_txid := 1; op_vout := 0 |};
                                 sequence := 0 |}];
       output := [] |} None
    (lookup_txos SpecBackend.s4_txo [{| op_txid := 1; op_vout := 0 |}]) = Err e.
Proof.
  pose proof (prepare_txs_keeps_convertible SpecBackend.s4_sigops SpecBackend.s4_fee
    SpecBackend.s4_txo
       [({| txid := 300; input := [{| previous_output := {| op_txid := 1; op_vout := 0 |};
                                        sequence := 0 |}];
            output := [] |}, None);
        ({| txid := 301; input := [{| previous_output := {| op_txid := 0; op_vout := 4294967295 |};
                                        sequence := 0 |}];
            output := [] |}, Some SpecBackend.block5)]) as H.
  cbv zeta in H. destruct H as [Hc [Hmiss _]].
  split.
  - rewrite Hc. reflexivity.
  - apply (Hmiss _ None {| previous_output := {| op_txid := 1; op_vout := 0 |}; sequence := 0 |}).
    + left. reflexivity.
    + left. reflexivity.
    + reflexivity.
    + reflexivity.
Defined.

End PrepareFacts.

Module RestParseFacts.
Import Types TxTest Rest.
Local Open Scope Z_scope.

Lemma fold_dec_ge (ds : list Z) (acc : Z) :
  Forall (fun d => 0 <= d <= 9) ds -> 0 <= acc ->
  acc <= fold_left (fun a d => a * 10 + d) ds acc.
Proof.
  revert acc. induction ds as [|d ds IH]; intros acc Hds Hacc; simpl; [lia|].
  inversion Hds as [|? ? Hd Hds']; subst. specialize (IH (acc * 10 + d) Hds' ltac:(lia)). lia.
Qed.

Lemma parse_digits_map (max : Z) (ds : list Z) (acc : Z) :
  Forall (fun d => 0 <= d <= 9) ds -> 0 <= acc <= max ->
  parse_digits max acc (map (fun d => 48 + d) ds) =
  (let v := fold_left (fun a d => a * 10 + d) ds acc in if v <=? max then Some v else None).
Proof.
  revert acc. induction ds as [|d ds IH]; intros acc Hds Hacc; cbn [map parse_digits fold_left].
  - replace (acc <=? max) with true by (symmetry; apply Z.leb_le; lia). reflexivity.
  - inversion Hds as [|? ? Hd Hds']; subst.
    unfold is_digit. replace ((48 <=? 48 + d) && (48 + d <=? 57)) with true
      by (symmetry; apply andb_true_iff; split; apply Z.leb_le; lia).
    replace (48 + d - 48) with d by lia.
    destruct (Z.leb_spec (acc * 10) max) as [H1|H1].
    + destruct (Z.leb_spec (acc * 10 + d) max) as [H2|H2].
      * apply IH; [assumption|lia].
      * pose proof (fold_dec_ge ds (acc * 10 + d) Hds' ltac:(lia)).
        replace (fold_left (fun a d0 => a * 10 + d0) ds (acc * 10 + d) <=? max) with false
          by (symmetry; apply Z.leb_gt; lia). reflexivity.
    + pose proof (fold_dec_ge ds (acc * 10 + d) Hds' ltac:(lia)).
      replace (fold_left (fun a d0 => a * 10 + d0) ds (acc * 10 + d) <=? max) with false
        by (symmetry; apply Z.leb_gt; lia). reflexivity.
Qed.

Lemma parse_digits_inv (max : Z) (s : RString) (acc n : Z) :
  parse_digits max acc s = Some n ->
  exists ds, s = map (fun d => 48 + d) ds /\ Forall (fun d => 0 <= d <= 9) ds /\
             n = fold_left (fun a d => a * 10 + d) ds acc /\ (s <> [] -> n <= max).
Proof.
  revert acc. induction s as [|c s IH]; intros acc H; simpl in H.
  - injection H as <-. exists []. repeat split; auto. intros []; reflexivity.
  - destruct (is_digit c) eqn:Hc; [|discriminate].
    destruct (Z.leb_spec (acc * 10) max); [|discriminate].
    destruct (Z.leb_spec (acc * 10 + (c - 48)) max); [|discriminate].
    destruct (IH _ H) as [ds [Hs [Hds [Hn Hle]]]].
    unfold is_digit in Hc. apply andb_true_iff in Hc as [Hc1 Hc2].
    apply Z.leb_le in Hc1, Hc2.
    exists (c - 48 :: ds). split; [rewrite Hs; cbn [map]; f_equal; lia|].
    split; [constructor; [lia|exact Hds]|]. split; [exact Hn|].
    intros _. destruct s as [|c' s'].
    + simpl in H. injection H as <-. lia.
    + apply Hle. discriminate.
Qed.

Lemma dec_value_app (ds : list Z) (d : Z) : dec_value (ds ++ [d]) = dec_value ds * 10 + d.
Proof. unfold dec_value. rewrite fold_left_app. reflexivity. Qed.

Lemma dec_digits_spec (fuel : nat) (n : Z) :
  (0 < fuel)%nat -> 0 <= n < 10 ^ Z.of_nat fuel ->
  exists ds, dec_digits fuel n = map (fun d => 48 + d) ds /\ ds <> [] /\
             Forall (fun d => 0 <= d <= 9) ds /\ dec_value ds = n.
Proof.
  revert n. induction fuel as [|fuel IH]; intros n Hf0 Hn; [lia|].
  - simpl. destruct (Z.ltb_spec n 10).
    + exists [n]. split; [reflexivity|]. split; [discriminate|].
      split; [constructor; [lia|constructor]|reflexivity].
    + rewrite Nat2Z.inj_succ, Z.pow_succ_r in Hn by lia.
      destruct fuel as [|fuel']; [simpl in Hn; lia|].
      destruct (IH (n / 10)) as [ds [Hd [Hne [Hf Hv]]]]; [lia| |].
      { split; [apply Z.div_pos; lia|]. apply Z.div_lt_upper_bound; lia. }
      exists (ds ++ [n mod 10]). rewrite Hd, map_app. split; [reflexivity|].
      split; [destruct ds; discriminate|].
      split; [apply Forall_app; split; [exact Hf|constructor; [|constructor]]|].
      { pose proof (Z.mod_pos_bound n 10). lia. }
      rewrite dec_value_app, Hv. pose proof (Z.div_mod n 10). lia.
Qed.

(** Integer parameters and path segments: [str::parse::<u64>()] and
    [str::parse::<u32>()] accept exactly a non-empty run of decimal digits,
    optionally after one [+], whose value fits the type; leading zeros are
    allowed. *)
Theorem parse_uint_iff (bits : Z) (s : RString) (n : Z) :
  0 <= bits ->
  parse_uint bits s = Some n <->
  exists ds, ds <> [] /\ Forall (fun d => 0 <= d <= 9) ds /\
    (s = map (fun d => 48 + d) ds \/ s = 43 :: map (fun d => 48 + d) ds) /\
    n = dec_value ds /\ n < 2 ^ bits.
Proof.
  intros Hb. assert (Hp : 1 <= 2 ^ bits) by (pose proof (Z.pow_pos_nonneg 2 bits); lia).
  split.
  - unfold parse_uint. destruct s as [|c rest]; [discriminate|].
    destruct (((c =? 43) || (c =? 45)) && match rest with [] => true | _ => false end) eqn:E;
      [discriminate|].
    destruct (Z.eqb_spec c 43) as [->|Hc]; intros H.
    + destruct (parse_digits_inv _ _ _ _ H) as [ds [Hs [Hf [Hn Hle]]]].
      assert (rest <> []) by (intros ->; discriminate).
      exists ds. split; [intros ->; subst; contradiction|].
      split; [exact Hf|]. split; [right; rewrite Hs; reflexivity|].
      split; [exact Hn|]. specialize (Hle H0). lia.
    + destruct (parse_digits_inv _ _ _ _ H) as [ds [Hs [Hf [Hn Hle]]]].
      exists ds. split; [intros ->; discriminate|].
      split; [exact Hf|]. split; [left; exact Hs|]. split; [exact Hn|].
      specialize (Hle ltac:(discriminate)). lia.
  - intros [ds [Hne [Hf [Hs [Hn Hlt]]]]].
    assert (Hd : parse_digits (2 ^ bits - 1) 0 (map (fun d => 48 + d) ds) = Some n).
    { rewrite parse_digits_map by (auto; lia). cbv zeta. fold (dec_value ds).
      rewrite <- Hn. replace (n <=? 2 ^ bits - 1) with true by (symmetry; apply Z.leb_le; lia).
      reflexivity. }
    destruct ds as [|d ds]; [contradiction|]. inversion Hf; subst.
    unfold parse_uint. destruct Hs as [-> | ->]; cbn [map].
    + replace (((48 + d =? 43) || (48 + d =? 45)) && match map (fun d0 => 48 + d0) ds with
                  [] => true | _ => false end) with false
        by (symmetry; apply andb_false_iff; left; apply orb_false_iff;
            split; apply Z.eqb_neq; lia).
      replace (48 + d =? 43) with false by (symmetry; apply Z.eqb_neq; lia).
      exact Hd.
    + simpl. exact Hd.
Qed.

Lemma parse_uint_iff_witness :
  parse_uint 64 [43; 48; 55] = Some 7 /\
  (exists ds, ds <> [] /\ Forall (fun d => 0 <= d <= 9) ds /\
     ([43; 48; 55] = map (fun d => 48 + d) ds \/ [43; 48; 55] = 43 :: map (fun d => 48 + d) ds) /\
     7 = dec_value ds /\ 7 < 2 ^ 64).
Proof.
  split; [reflexivity|].
  apply (proj1 (parse_uint_iff 64 [43; 48; 55] 7 ltac:(lia))). reflexivity.
Defined.

(** [best_height().to_string()] (the body of [GET /blocks/tip/height]) is
    read back by [str::parse::<usize>()] as the same number. *)
Theorem usize_to_string_parse (n : Z) :
  0 <= n < 2 ^ 64 -> parse_usize (usize_to_string n) = Some n.
Proof.
  intros Hn. unfold usize_to_string, parse_usize.
  destruct (dec_digits_spec 20 n) as [ds [Hd [Hne [Hf Hv]]]]; [lia| |].
  { split; [lia|]. assert (2 ^ 64 < 10 ^ Z.of_nat 20) by reflexivity. lia. }
  rewrite Hd. apply (parse_uint_iff 64 _ n ltac:(lia)).
  exists ds. repeat split; auto; lia.
Qed.

Lemma usize_to_string_parse_witness :
  (0 <= 1234 < 2 ^ 64) /\ parse_usize (usize_to_string 1234) = Some 1234.
Proof. split; [lia|]. apply usize_to_string_parse. lia. Defined.

End RestParseFacts.

Module RestHexFacts.
Import Types TxTest Rest.
Local Open Scope Z_scope.

Lemma hex_val_digit (n : Z) : 0 <= n < 16 -> hex_val (hex_digit n) = Some n.
Proof.
  intros Hn. unfold hex_digit, hex_val.
  destruct (Z.ltb_spec n 10).
  - replace ((48 <=? 48 + n) && (48 + n <=? 57)) with true
      by (symmetry; apply andb_true_iff; split; apply Z.leb_le; lia).
    f_equal; lia.
  - replace ((48 <=? 87 + n) && (87 + n <=? 57)) with false
      by (symmetry; apply andb_false_iff; right; apply Z.leb_gt; lia).
    replace ((97 <=? 87 + n) && (87 + n <=? 102)) with true
      by (symmetry; apply andb_true_iff; split; apply Z.leb_le; lia).
    f_equal; lia.
Qed.

Lemma from_hex_hex_encode (bytes : list Z) :
  Forall (fun b => 0 <= b < 256) bytes -> from_hex (hex_encode bytes) = Some bytes.
Proof.
  induction bytes as [|b bytes IH]; intros Hb; [reflexivity|].
  inversion Hb as [|? ? Hb0 Hbs]; subst.
  unfold hex_encode in *. cbn [flat_map app from_hex].
  rewrite (hex_val_digit (b / 16)) by (split; [apply Z.div_pos|apply Z.div_lt_upper_bound]; lia).
  rewrite (hex_val_digit (b mod 16)) by (apply Z.mod_pos_bound; lia).
  rewrite (IH Hbs). f_equal. f_equal. pose proof (Z.div_mod b 16). lia.
Qed.

Lemma hex_encode_length (bytes : list Z) : length (hex_encode bytes) = (2 * length bytes)%nat.
Proof.
  induction bytes as [|b bytes IH]; [reflexivity|].
  unfold hex_encode in *. cbn [flat_map app length]. rewrite IH. lia.
Qed.

Lemma from_hex_some_iff (s : RString) :
  (exists bytes, from_hex s = Some bytes) <->
  Nat.Even (length s) /\ Forall (fun c => hex_val c <> None) s.
Proof.
  induction s as [[|hi [|lo rest]] IH] using (induction_ltof1 _ (@length Z)).
  - split; [intros _; split; [exists 0%nat; reflexivity|constructor]|intros _; eexists; reflexivity].
  - split.
    + intros [b H]. discriminate.
    + intros [[k Hk] _]. simpl in Hk. lia.
  - assert (IHr := IH rest ltac:(unfold ltof; simpl; lia)).
    cbn [from_hex length]. split.
    + intros [b H].
      destruct (hex_val hi) eqn:Eh, (hex_val lo) eqn:El, (from_hex rest) eqn:Er;
        try discriminate.
      destruct (proj1 IHr (ex_intro _ _ eq_refl)) as [[k Hk] Hf].
      split; [exists (S k); lia|].
      constructor; [congruence|constructor; [congruence|exact Hf]].
    + intros [[k Hk] Hf]. inversion Hf as [|? ? Hhi Hf']; subst.
      inversion Hf' as [|? ? Hlo Hrest]; subst.
      destruct (proj2 IHr) as [b Hb].
      { split; [exists (k - 1)%nat; lia|exact Hrest]. }
      destruct (hex_val hi); [|contradiction]. destruct (hex_val lo); [|contradiction].
      rewrite Hb. eexists; reflexivity.
Qed.

(** [parse_scripthash] and [Txid::from_hex]/[BlockHash::from_hex] accept
    exactly the strings of 64 hex digits (either case); [parse_scripthash]
    reads back the lower-case [hex::encode] of any 32 bytes as those bytes,
    and it fails with a 400 whose message is "Invalid scripthash" exactly
    when the string is valid hex of another length ("Invalid hex string"
    otherwise). *)
Theorem scripthash_and_hash_parsing :
  (forall bytes, length bytes = 32%nat -> Forall (fun b => 0 <= b < 256) bytes ->
     parse_scripthash (hex_encode bytes) = Ok (full_hash bytes)) /\
  (forall s, (exists h, parse_scripthash s = Ok h) <->
     length s = 64%nat /\ Forall (fun c => hex_val c <> None) s) /\
  (forall s, (exists h, hash_from_hex s = Some h) <->
     length s = 64%nat /\ Forall (fun c => hex_val c <> None) s) /\
  (forall s e, parse_scripthash s = Err e ->
     re_status e = 400 /\ (re_msg e = RInvalidScripthash <-> from_hex s <> None)).
Proof.
  split; [|split; [|split]].
  - intros bytes Hl Hb. unfold parse_scripthash. rewrite from_hex_hex_encode by exact Hb.
    rewrite Hl. reflexivity.
  - intros s. split.
    + intros [h H]. unfold parse_scripthash in H.
      destruct (from_hex s) as [b|] eqn:E; [|discriminate].
      destruct (Nat.eqb_spec (length b) 32); [|discriminate].
      split; [rewrite (TxTestFacts.from_hex_length s b E); lia|].
      apply (proj1 (from_hex_some_iff s)). exists b; exact E.
    + intros [Hl Hf]. destruct (proj2 (from_hex_some_iff s)) as [b Hb].
      { split; [exists 32%nat; lia|exact Hf]. }
      pose proof (TxTestFacts.from_hex_length s b Hb).
      unfold parse_scripthash. rewrite Hb.
      replace (Nat.eqb (length b) 32) with true by (symmetry; apply Nat.eqb_eq; lia).
      eexists; reflexivity.
  - intros s. split.
    + intros [h H]. unfold hash_from_hex in H.
      destruct (from_hex s) as [b|] eqn:E; [|discriminate].
      destruct (Nat.eqb_spec (length b) 32); [|discriminate].
      split; [rewrite (TxTestFacts.from_hex_length s b E); lia|].
      apply (proj1 (from_hex_some_iff s)). exists b; exact E.
    + intros [Hl Hf]. destruct (proj2 (from_hex_some_iff s)) as [b Hb].
      { split; [exists 32%nat; lia|exact Hf]. }
      pose proof (TxTestFacts.from_hex_length s b Hb).
      unfold hash_from_hex. rewrite Hb.
      replace (Nat.eqb (length b) 32) with true by (symmetry; apply Nat.eqb_eq; lia).
      eexists; reflexivity.
  - intros s e H. unfold parse_scripthash in H.
    destruct (from_hex s) as [b|] eqn:E.
    + destruct (Nat.eqb (length b) 32); simpl in H; [discriminate|].
      injection H as <-. split; [reflexivity|split; [discriminate|reflexivity]].
    + injection H as <-. split; [reflexivity|split; [discriminate|]].
      intros Hc; exfalso; apply Hc; reflexivity.
Qed.

End RestHexFacts.

Module BlocksFacts.
Import Types Ttl TxTest Rest.
Local Open Scope Z_scope.

Section Store.
Variable header_by_height : Z -> option BlockHash.
Variable best_hash : BlockHash.
Variable get_block_with_meta : BlockHash -> option BlockHeaderMeta.

Lemma blocks_loop_shape (n : nat) (h : BlockHash) (vals : list BlockValue) :
  (forall h b, get_block_with_meta h = Some b -> bhm_hash b = h) ->
  blocks_loop get_block_with_meta n h = Ok vals ->
  (length vals <= n)%nat /\ chain_linked vals = true /\
  match vals with [] => n = 0%nat | v :: _ => bv_id v = h end /\
  ((length vals < n)%nat -> exists vs v, vals = vs ++ [v] /\ previousblockhash v = None).
Proof.
  intros Hstore. revert h vals. induction n as [|n IH]; intros h vals H.
  - simpl in H. injection H as <-. split; [simpl; lia|]. split; [reflexivity|].
    split; [reflexivity|]. intros Hl; simpl in Hl; lia.
  - simpl in H. destruct (get_block_with_meta h) as [b|] eqn:Eb; simpl in H; [|discriminate].
    pose proof (Hstore h b Eb) as Hid.
    destruct (Z.eqb_spec (prev_blockhash (bhm_header b)) 0) as [Hz|Hz].
    + injection H as <-. split; [simpl; lia|]. split; [reflexivity|].
      split; [exact Hid|]. intros _. exists [], (BlockValue_new b). split; [reflexivity|].
      unfold BlockValue_new. simpl. rewrite Hz. reflexivity.
    + destruct (blocks_loop get_block_with_meta n (prev_blockhash (bhm_header b))) as [rest|e]
        eqn:Er; simpl in H; [|discriminate].
      injection H as <-.
      destruct (IH _ _ Er) as [Hl [Hlk [Hfirst Hshort]]].
      split; [simpl; lia|]. split.
      { destruct rest as [|w rest']; [reflexivity|].
        change (chain_linked (BlockValue_new b :: w :: rest')) with
          (match previousblockhash (BlockValue_new b) with
           | Some p => (p =? bv_id w) && chain_linked (w :: rest')
           | None => false end).
        unfold BlockValue_new at 1. simpl previousblockhash.
        replace (negb (prev_blockhash (bhm_header b) =? 0)) with true
          by (symmetry; apply negb_true_iff, Z.eqb_neq; exact Hz).
        rewrite Hfirst, Z.eqb_refl. exact Hlk. }
      split; [exact Hid|].
      intros Hlt. simpl in Hlt.
      destruct (Hshort ltac:(lia)) as [vs [v [Hv Hp]]].
      exists (BlockValue_new b :: vs), v. rewrite Hv. split; [reflexivity|exact Hp].
Qed.

(** [blocks] answers, with status 200 and the short TTL, at most [limit]
    blocks starting with the block at [start_height] (the tip when none is
    given) and walking back through [previousblockhash]: each entry but the
    last names the next one as its parent, and the list is shorter than
    [limit] only when its last block has no [previousblockhash] (the walk
    reached the genesis block). *)
Theorem blocks_walk (limit : nat) (start_height : option Z) (r : Reply (list BlockValue)) :
  (forall h b, get_block_with_meta h = Some b -> bhm_hash b = h) ->
  blocks header_by_height best_hash get_block_with_meta limit start_height = Ok r ->
  r_status r = 200 /\ r_ttl r = TTL_SHORT /\
  (length (r_body r) <= limit)%nat /\ chain_linked (r_body r) = true /\
  (exists start_hash,
     match start_height with
     | Some height => header_by_height height = Some start_hash
     | None => start_hash = best_hash
     end /\
     match r_body r with [] => limit = 0%nat | v :: _ => bv_id v = start_hash end) /\
  ((length (r_body r) < limit)%nat ->
     exists vs v, r_body r = vs ++ [v] /\ previousblockhash v = None).
Proof.
  intros Hstore H. unfold blocks in H.
  destruct (match start_height with
            | Some height => ok_or (header_by_height height) (not_found RBlockNotFound)
            | None => Ok best_hash
            end) as [start_hash|e] eqn:Es; simpl in H; [|discriminate].
  destruct (blocks_loop get_block_with_meta limit start_hash) as [vals|e] eqn:El;
    simpl in H; [|discriminate].
  unfold json_response in H. injection H as <-. simpl.
  destruct (blocks_loop_shape limit start_hash vals Hstore El) as [Hl [Hlk [Hf Hs]]].
  split; [reflexivity|]. split; [reflexivity|]. split; [exact Hl|]. split; [exact Hlk|].
  split; [|exact Hs].
  exists start_hash. split; [|exact Hf].
  destruct start_height as [height|]; simpl in Es.
  - destruct (header_by_height height); simpl in Es; congruence.
  - congruence.
Qed.

(** The failures of [GET /blocks[/{start_height}]]: the only error is the
    404 "Block not found" (an unknown start height, or a block missing on
    the walk, which fails the whole call); a start segment that is not a
    number is ignored, so the walk starts at the tip; with a block limit of
    0 the answer from the tip is the empty list. *)
Theorem blocks_errors (limit : nat) (start_height : option Z) (seg : RString) :
  (forall e, blocks header_by_height best_hash get_block_with_meta limit start_height = Err e ->
     e = not_found RBlockNotFound) /\
  (forall height, start_height = Some height -> header_by_height height = None ->
     blocks header_by_height best_hash get_block_with_meta limit start_height
     = Err (not_found RBlockNotFound)) /\
  (parse_usize seg = None ->
     handle_blocks header_by_height best_hash get_block_with_meta limit (Some seg)
     = handle_blocks header_by_height best_hash get_block_with_meta limit None) /\
  blocks header_by_height best_hash get_block_with_meta 0 None
  = Ok {| r_status := 200; r_body := []; r_ttl := TTL_SHORT |}.
Proof.
  split; [|split; [|split]].
  - assert (Hloop : forall n h e, blocks_loop get_block_with_meta n h = Err e ->
                                  e = not_found RBlockNotFound).
    { induction n as [|n IH]; intros h e H; simpl in H; [discriminate|].
      destruct (get_block_with_meta h); simpl in H; [|congruence].
      destruct (_ =? 0); [discriminate|].
      destruct (blocks_loop get_block_with_meta n _) eqn:E; simpl in H; [discriminate|].
      injection H as <-. exact (IH _ _ E). }
    intros e H. unfold blocks in H.
    destruct start_height as [height|]; simpl in H.
    + destruct (header_by_height height); simpl in H; [|congruence].
      destruct (blocks_loop _ _ _) eqn:E; simpl in H; [discriminate|].
      injection H as <-. exact (Hloop _ _ _ E).
    + destruct (blocks_loop _ _ _) eqn:E; simpl in H; [discriminate|].
      injection H as <-. exact (Hloop _ _ _ E).
  - intros height -> Hn. unfold blocks. simpl. rewrite Hn. reflexivity.
  - intros Hs. unfold handle_blocks. rewrite Hs. reflexivity.
  - reflexivity.
Qed.

End Store.

(** A three-block chain 30 <- 20 <- 10 (block 10 at height 0 is the
    genesis block). *)
Lemma blocks_walk_witness :
  let get := fun h : BlockHash =>
    if h =? 10 then Some {| bhm_header := {| version := 1; prev_blockhash := 0; merkle_root := 0;
                                              time := 0; bits := 0x1d00ffff; nonce := 0 |};
                            bhm_hash := 10; bhm_height := 0;
                            bhm_meta := {| tx_count := 1; size := 0; weight := 0 |}; bhm_mtp := 0 |}
    else if h =? 20 then Some {| bhm_header := {| version := 1; prev_blockhash := 10; merkle_root := 0;
                                              time := 0; bits := 0x1d00ffff; nonce := 0 |};
                            bhm_hash := 20; bhm_height := 1;
                            bhm_meta := {| tx_count := 1; size := 0; weight := 0 |}; bhm_mtp := 0 |}
    else if h =? 30 then Some {| bhm_header := {| version := 1; prev_blockhash := 20; merkle_root := 0;
                                              time := 0; bits := 0x1d00ffff; nonce := 0 |};
                            bhm_hash := 30; bhm_height := 2;
                            bhm_meta := {| tx_count := 1; size := 0; weight := 0 |}; bhm_mtp := 0 |}
    else None in
  (forall h b, get h = Some b -> bhm_hash b = h) /\
  map bv_id (match blocks (fun _ => None) 30 get 10 None with Ok r => r_body r | Err _ => [] end)
    = [30; 20; 10] /\
  exists r, blocks (fun _ => None) 30 get 10 None = Ok r /\
    (length (r_body r) < 10)%nat /\
    exists vs v, r_body r = vs ++ [v] /\ previousblockhash v = None.
Proof.
  intros get.
  assert (Hstore : forall h b, get h = Some b -> bhm_hash b = h).
  { intros h b H. unfold get in H.
    destruct (Z.eqb_spec h 10); [injection H as <-; simpl; lia|].
    destruct (Z.eqb_spec h 20); [injection H as <-; simpl; lia|].
    destruct (Z.eqb_spec h 30); [injection H as <-; simpl; lia|].
    discriminate. }
  split; [exact Hstore|]. split; [vm_compute; reflexivity|].
  eexists. split; [reflexivity|].
  split; [vm_compute; lia|].
  match goal with |- context [r_body ?r] =>
    exact (proj2 (proj2 (proj2 (proj2 (proj2 (blocks_walk (fun _ => None) 30 get 10 None r Hstore
             eq_refl))))) ltac:(vm_compute; lia)) end.
Defined.

End BlocksFacts.

Module TxValueFacts.
Import Types TxValues.
Local Open Scope Z_scope.

Lemma extract_prevouts_ext (f g : OutPoint -> option TxOut) (ins : list (Z * TxIn)) :
  (forall i txin, In (i, txin) ins -> has_prevout txin = true ->
     f (previous_output txin) = g (previous_output txin)) ->
  extract_prevouts_from f ins = extract_prevouts_from g ins.
Proof.
  induction ins as [|[j t] ins IH]; intros Hfg; [reflexivity|].
  simpl. rewrite IH by (intros i txin Hin; apply (Hfg i txin); right; exact Hin).
  destruct (has_prevout t) eqn:Ht; [|reflexivity].
  rewrite (Hfg j t (or_introl eq_refl) Ht). reflexivity.
Qed.

Lemma TransactionValue_new_ext sig fee tx b (f g : OutPoint -> option TxOut) :
  (forall txin, In txin (input tx) -> has_prevout txin = true ->
     f (previous_output txin) = g (previous_output txin)) ->
  TransactionValue_new sig fee tx b f = TransactionValue_new sig fee tx b g.
Proof.
  intros Hfg. unfold TransactionValue_new, extract_tx_prevouts.
  rewrite (extract_prevouts_ext f g); [reflexivity|].
  intros i txin Hin. apply Hfg. exact (PrepareFacts.enumerate_from_in_inv _ _ _ _ Hin).
Qed.

Lemma prepare_txs_full sig fee lookup_txo (txs : list (Transaction * option BlockId)) :
  prepare_txs sig fee lookup_txo txs =
    concat (map (fun '(tx, b) =>
                   match TransactionValue_new sig fee tx b lookup_txo with
                   | Ok v => [v]
                   | Err _ => []
                   end) txs).
Proof.
  unfold prepare_txs. rewrite PrepareFacts.filter_map_concat. f_equal.
  apply map_ext_in. intros [tx b] Hin. unfold result_ok.
  rewrite (TransactionValue_new_ext sig fee tx b _ lookup_txo).
  - destruct (TransactionValue_new sig fee tx b lookup_txo); reflexivity.
  - intros txin Htx Hp. apply PrepareFacts.lookup_txos_requested.
    exact (PrepareFacts.prevout_requested txs tx b txin Hin Htx Hp).
Qed.

Lemma prepare_txs_app sig fee lookup_txo (txs txs' : list (Transaction * option BlockId)) :
  prepare_txs sig fee lookup_txo (txs ++ txs') =
    prepare_txs sig fee lookup_txo txs ++ prepare_txs sig fee lookup_txo txs'.
Proof. rewrite !prepare_txs_full, map_app, concat_app. reflexivity. Qed.

(** [prepare_txs] gives each transaction the value [TransactionValue::new]
    computes against the whole output store: looking up only the
    requested outpoints changes nothing.  Hence it is compositional: the
    answer for a concatenation of lists is the concatenation of the
    answers, so splitting a list into pages does not change any entry. *)
Theorem prepare_txs_full_store sig fee lookup_txo (txs txs' : list (Transaction * option BlockId)) :
  prepare_txs sig fee lookup_txo txs =
    concat (map (fun '(tx, b) =>
                   match TransactionValue_new sig fee tx b lookup_txo with
                   | Ok v => [v]
                   | Err _ => []
                   end) txs) /\
  prepare_txs sig fee lookup_txo (txs ++ txs') =
    prepare_txs sig fee lookup_txo txs ++ prepare_txs sig fee lookup_txo txs'.
Proof. split; [apply prepare_txs_full|apply prepare_txs_app]. Qed.

Lemma enumerate_from_nth {A} (k : Z) (l : list A) (j : nat) (x : A) :
  nth_error l j = Some x -> nth_error (enumerate_from k l) j = Some (k + Z.of_nat j, x).
Proof.
  revert k j. induction l as [|y l IH]; intros k j H; [destruct j; discriminate|].
  destruct j as [|j]; simpl in H |- *.
  - injection H as ->. f_equal. f_equal. lia.
  - rewrite (IH (k + 1) j H). f_equal. f_equal. lia.
Qed.

Lemma length_enumerate_from {A} (k : Z) (l : list A) : length (enumerate_from k l) = length l.
Proof. revert k. induction l; intros k; simpl; [reflexivity|]. rewrite IHl. reflexivity. Qed.

Lemma extract_prevouts_below txos (k : Z) (l : list TxIn) (p : Prevouts) :
  extract_prevouts_from txos (enumerate_from k l) = Ok p ->
  forall j, j < k -> prevouts_get p j = None.
Proof.
  revert k p. induction l as [|t l IH]; intros k p H j Hj; simpl in H.
  - injection H as <-. reflexivity.
  - destruct (has_prevout t).
    + destruct (txos (previous_output t)) as [o|]; [|discriminate].
      destruct (extract_prevouts_from txos (enumerate_from (k + 1) l)) as [r|] eqn:E;
        simpl in H; [|discriminate].
      injection H as <-. simpl.
      replace (k =? j) with false by (symmetry; apply Z.eqb_neq; lia).
      exact (IH _ _ E j ltac:(lia)).
    + exact (IH _ _ H j ltac:(lia)).
Qed.

Lemma extract_prevouts_get txos (k : Z) (l : list TxIn) (p : Prevouts) :
  extract_prevouts_from txos (enumerate_from k l) = Ok p ->
  forall j txin, nth_error l j = Some txin ->
    prevouts_get p (k + Z.of_nat j) =
      (if has_prevout txin then txos (previous_output txin) else None) /\
    (has_prevout txin = true -> txos (previous_output txin) <> None).
Proof.
  revert k p. induction l as [|t l IH]; intros k p H j txin Hj; [destruct j; discriminate|].
  simpl in H. destruct j as [|j]; simpl in Hj.
  - injection Hj as ->. rewrite Z.add_0_r.
    destruct (has_prevout txin) eqn:Hp.
    + destruct (txos (previous_output txin)) as [o|] eqn:Eo; [|discriminate].
      destruct (extract_prevouts_from txos (enumerate_from (k + 1) l)) as [r|] eqn:E;
        simpl in H; [|discriminate].
      injection H as <-. simpl. rewrite Z.eqb_refl. split; [reflexivity|congruence].
    + split; [|discriminate]. exact (extract_prevouts_below txos (k + 1) l p H k ltac:(lia)).
  - replace (k + Z.of_nat (S j)) with ((k + 1) + Z.of_nat j) by lia.
    destruct (has_prevout t).
    + destruct (txos (previous_output t)) as [o|]; [|discriminate].
      destruct (extract_prevouts_from txos (enumerate_from (k + 1) l)) as [r|] eqn:E;
        simpl in H; [|discriminate].
      injection H as <-. simpl.
      replace (k =? k + 1 + Z.of_nat j) with false by (symmetry; apply Z.eqb_neq; lia).
      exact (IH _ _ E j txin Hj).
    + exact (IH _ _ H j txin Hj).
Qed.

(** A [TransactionValue] built by [TransactionValue::new] has the txid and
    the status of its transaction and block, one [vout] entry per output
    with its [TxOutValue], and one [vin] entry per input, in order: the
    entry names the spent outpoint's txid, says whether the input is a
    coinbase, and carries the prevout exactly for the inputs that have one
    ([has_prevout]); for those the prevout was found. *)
Theorem TransactionValue_new_shape sig fee tx b txos v :
  TransactionValue_new sig fee tx b txos = Ok v ->
  tv_txid v = txid tx /\ status v = Some (status_from b) /\
  vout v = map TxOutValue_new (output tx) /\
  length (vin v) = length (input tx) /\
  forall j txin, nth_error (input tx) j = Some txin ->
    exists vi, nth_error (vin v) j = Some vi /\
      tiv_txid vi = op_txid (previous_output txin) /\
      tiv_vout vi = op_vout (previous_output txin) /\
      tiv_is_coinbase vi = is_coinbase txin /\
      prevout vi = (if has_prevout txin
                    then option_map TxOutValue_new (txos (previous_output txin)) else None) /\
      (has_prevout txin = true -> txos (previous_output txin) <> None).
Proof.
  unfold TransactionValue_new, extract_tx_prevouts.
  destruct (extract_prevouts_from txos (enumerate_from 0 (input tx))) as [p|e] eqn:Ep;
    simpl; [|discriminate].
  destruct (sig tx p) as [n|]; [|discriminate].
  intros H. injection H as <-. simpl.
  split; [reflexivity|]. split; [reflexivity|]. split; [reflexivity|].
  split; [rewrite length_map, length_enumerate_from; reflexivity|].
  intros j txin Hj.
  pose proof (enumerate_from_nth 0 (input tx) j txin Hj) as He.
  destruct (extract_prevouts_get txos 0 (input tx) p Ep j txin Hj) as [Hg Hf].
  eexists. split; [rewrite nth_error_map, He; reflexivity|].
  simpl. rewrite Z.add_0_l in Hg. rewrite Hg. split; [reflexivity|]. split; [reflexivity|]. split; [reflexivity|].
  split; [destruct (has_prevout txin); reflexivity|exact Hf].
Qed.

Lemma TransactionValue_new_shape_witness :
  exists v,
  TransactionValue_new SpecBackend.s4_sigops SpecBackend.s4_fee
    {| txid := 301; input := [{| previous_output := {| op_txid := 0; op_vout := 4294967295 |};
                                 sequence := 0 |}]; output := [] |} None SpecBackend.s4_txo = Ok v /\
  length (vin v) = 1%nat.
Proof.
  eexists. split; [reflexivity|].
  match goal with |- context [vin ?v] =>
    destruct (TransactionValue_new_shape SpecBackend.s4_sigops SpecBackend.s4_fee
      {| txid := 301; input := [{| previous_output := {| op_txid := 0; op_vout := 4294967295 |};
                                   sequence := 0 |}]; output := [] |} None SpecBackend.s4_txo v
      eq_refl) as [_ [_ [_ [Hl _]]]] end.
  exact Hl.
Defined.

End TxValueFacts.

Module BlockTxsFacts.
Import Types Ttl TxTest TxValues Rest.
Local Open Scope Z_scope.

Lemma parse_uint_nonneg (bits : Z) (s : RString) (n : Z) :
  parse_uint bits s = Some n -> 0 <= n.
Proof.
  unfold parse_uint. destruct s as [|c rest]; [discriminate|].
  destruct (_ && _); [discriminate|].
  destruct (c =? 43); intros H;
    destruct (RestParseFacts.parse_digits_inv _ _ _ _ H) as [ds [_ [Hf [Hn _]]]];
    subst n; apply RestParseFacts.fold_dec_ge; auto; lia.
Qed.

Lemma parse_uint_of_digits (bits : Z) (ds : list Z) :
  0 <= bits -> ds <> [] -> Forall (fun d => 0 <= d <= 9) ds -> dec_value ds < 2 ^ bits ->
  parse_uint bits (map (fun d => 48 + d) ds) = Some (dec_value ds).
Proof.
  intros Hb Hne Hf Hlt.
  assert (Hd : parse_digits (2 ^ bits - 1) 0 (map (fun d => 48 + d) ds) = Some (dec_value ds)).
  { rewrite RestParseFacts.parse_digits_map by (auto; unfold dec_value in Hlt;
      pose proof (RestParseFacts.fold_dec_ge ds 0 Hf ltac:(lia)); lia).
    cbv zeta. fold (dec_value ds).
    replace (dec_value ds <=? 2 ^ bits - 1) with true by (symmetry; apply Z.leb_le; lia).
    reflexivity. }
  destruct ds as [|d ds]; [contradiction|]. inversion Hf; subst.
  unfold parse_uint. cbn [map].
  replace (((48 + d =? 43) || (48 + d =? 45)) && match map (fun d0 => 48 + d0) ds with
              [] => true | _ => false end) with false
    by (symmetry; apply andb_false_iff; left; apply orb_false_iff;
        split; apply Z.eqb_neq; lia).
  replace (48 + d =? 43) with false by (symmetry; apply Z.eqb_neq; lia).
  exact Hd.
Qed.

Lemma parse_u32_to_string (n : Z) :
  0 <= n < 2 ^ 32 -> parse_u32 (usize_to_string n) = Some n.
Proof.
  intros Hn. unfold usize_to_string, parse_u32.
  destruct (RestParseFacts.dec_digits_spec 20 n) as [ds [Hd [Hne [Hf Hv]]]]; [lia| |].
  { split; [lia|]. assert (2 ^ 32 < 10 ^ Z.of_nat 20) by reflexivity. lia. }
  rewrite Hd, <- Hv. apply parse_uint_of_digits; auto; lia.
Qed.

Lemma firstn_skipn_chunks {A} (p : nat) (n : nat) (l : list A) :
  (length l <= n * p)%nat ->
  concat (map (fun k => firstn p (skipn (k * p) l)) (seq 0 n)) = l.
Proof.
  revert l. induction n as [|n IH]; intros l Hl.
  - destruct l; [reflexivity|simpl in Hl; lia].
  - rewrite <- cons_seq, <- seq_shift, map_cons, map_map. simpl concat.
    try rewrite skipn_O.
    erewrite map_ext; [|intros k; rewrite Nat.add_comm, <- skipn_skipn; reflexivity].
    rewrite IH; [apply firstn_skipn|]. rewrite length_skipn. lia.
Qed.

Section Store.
Variable transaction_sigop_count : Transaction -> Prevouts -> option Z.
Variable get_tx_fee : Transaction -> Prevouts -> Z.
Variable lookup_txo : OutPoint -> option TxOut.
Variable get_block_txids : BlockHash -> option (list Txid).
Variable blockid_by_hash : BlockHash -> option BlockId.
Variable lookup_txn : Txid -> option Transaction.
Variable tx_confirming_block : Txid -> option BlockId.
Variable best_height : Z.

Let handle_block_txs' :=
  handle_block_txs transaction_sigop_count get_tx_fee lookup_txo get_block_txids
    blockid_by_hash lookup_txn best_height.
Let prepare' := prepare transaction_sigop_count get_tx_fee lookup_txo.

Lemma lookup_block_txs_split (b : option BlockId) (l : list Txid) txs :
  lookup_block_txs lookup_txn b l = Ok txs ->
  forall n, lookup_block_txs lookup_txn b (firstn n l) = Ok (firstn n txs) /\
            lookup_block_txs lookup_txn b (skipn n l) = Ok (skipn n txs).
Proof.
  revert txs. induction l as [|t l IH]; intros txs H n; simpl in H.
  - injection H as <-. destruct n; split; reflexivity.
  - destruct (lookup_txn t) as [tx|] eqn:Et; simpl in H; [|discriminate].
    destruct (lookup_block_txs lookup_txn b l) as [r|] eqn:Er; simpl in H; [|discriminate].
    injection H as <-. destruct n as [|n]; [split; [reflexivity|simpl; rewrite Et, Er; reflexivity]|].
    destruct (IH r eq_refl n) as [H1 H2]. simpl. rewrite Et, H1. split; [reflexivity|exact H2].
Qed.

Lemma lookup_block_txs_length (b : option BlockId) (l : list Txid) txs :
  lookup_block_txs lookup_txn b l = Ok txs -> length txs = length l.
Proof.
  revert txs. induction l as [|t l IH]; intros txs H; simpl in H.
  - injection H as <-. reflexivity.
  - destruct (lookup_txn t); simpl in H; [|discriminate].
    destruct (lookup_block_txs lookup_txn b l) as [r|] eqn:Er; simpl in H; [|discriminate].
    injection H as <-. simpl. rewrite (IH r eq_refl). reflexivity.
Qed.

Lemma lookup_block_txs_missing (b : option BlockId) (l : list Txid) (t : Txid) :
  In t l -> lookup_txn t = None ->
  lookup_block_txs lookup_txn b l = Err (error_from RMissingTx).
Proof.
  induction l as [|t' l IH]; intros Hin Ht; [destruct Hin|].
  simpl. destruct Hin as [<-|Hin].
  - rewrite Ht. reflexivity.
  - destruct (lookup_txn t'); simpl; [|reflexivity]. rewrite (IH Hin Ht). reflexivity.
Qed.

Lemma prepare_length_le txs : (length (prepare' txs) <= length txs)%nat.
Proof.
  unfold prepare', prepare. rewrite TxValueFacts.prepare_txs_full.
  induction txs as [|[tx b] txs IH]; [simpl; lia|].
  simpl. rewrite length_app.
  destruct (TransactionValue_new _ _ tx b _); simpl; lia.
Qed.

(** [GET /block/{hash}/txid/{index}] answers exactly when the hash parses,
    the index parses as a [usize], the block is known and the index is
    below its number of transactions: then with status 200, the txid at
    that position and [TTL_LONG].  A bad index is reported (400) before
    the block is looked up; an unknown block and an index past the end
    are 404s. *)
Theorem block_txid_arm (hash index : RString) (r : Reply Txid) (h : BlockHash) :
  (handle_block_txid get_block_txids hash index = Ok r <->
   exists h i txids, hash_from_hex hash = Some h /\ parse_usize index = Some i /\
     get_block_txids h = Some txids /\ nth_error txids (Z.to_nat i) = Some (r_body r) /\
     r_status r = 200 /\ r_ttl r = TTL_LONG) /\
  (hash_from_hex hash = None ->
   handle_block_txid get_block_txids hash index = Err (error_from RInvalidHexString)) /\
  (hash_from_hex hash = Some h -> parse_usize index = None ->
   handle_block_txid get_block_txids hash index = Err (error_from RInvalidNumber)) /\
  (hash_from_hex hash = Some h -> parse_usize index <> None -> get_block_txids h = None ->
   handle_block_txid get_block_txids hash index = Err (not_found RBlockNotFound)) /\
  (forall i txids, hash_from_hex hash = Some h -> parse_usize index = Some i ->
   get_block_txids h = Some txids -> (length txids <= Z.to_nat i)%nat ->
   handle_block_txid get_block_txids hash index = Err (not_found RTxIndexOutOfRange)).
Proof.
  unfold handle_block_txid, parse_hash, parse_number.
  split; [|split; [|split; [|split]]].
  - split.
    + destruct (hash_from_hex hash) as [h'|] eqn:Eh; simpl; [|discriminate].
      destruct (parse_usize index) as [i|] eqn:Ei; simpl; [|discriminate].
      destruct (get_block_txids h') as [txids|] eqn:Eb; simpl; [|discriminate].
      pose proof (parse_uint_nonneg _ _ _ Ei) as Hi0.
      destruct (Z.leb_spec (Z.of_nat (length txids)) i) as [_|Hlt]; [discriminate|].
      intros Hr. injection Hr as <-. exists h', i, txids.
      split; [reflexivity|]. split; [reflexivity|]. split; [exact Eb|].
      split; [apply nth_error_nth'; lia|]. split; reflexivity.
    + intros [h' [i [txids [Hh [Hi [Ht [Hn [Hs Hl]]]]]]]].
      rewrite Hh, Hi. simpl. rewrite Ht. simpl.
      pose proof (parse_uint_nonneg _ _ _ Hi).
      assert (Hlt : (Z.to_nat i < length txids)%nat)
        by (apply nth_error_Some; rewrite Hn; discriminate).
      replace (Z.of_nat (length txids) <=? i) with false by (symmetry; apply Z.leb_gt; lia).
      unfold http_message. rewrite (nth_error_nth txids (Z.to_nat i) 0 Hn).
      destruct r; simpl in *; subst; reflexivity.
  - intros H. rewrite H. reflexivity.
  - intros H1 H2. rewrite H1, H2. reflexivity.
  - intros H1 H2 H3. rewrite H1. destruct (parse_usize index); [|contradiction].
    simpl. rewrite H3. reflexivity.
  - intros i txids H1 H2 H3 H4. rewrite H1, H2. simpl. rewrite H3. simpl.
    pose proof (parse_uint_nonneg _ _ _ H2).
    replace (Z.of_nat (length txids) <=? i) with true by (symmetry; apply Z.leb_le; lia).
    reflexivity.
Qed.

(** [GET /block/{hash}/txs[/{start_index}]] on a known block: a start index
    that does not parse as a [u32] is read as 0; an empty block answers
    404 for every start index; a start index inside the block panics when
    the page size is 0 and is refused (400) when it is not a multiple of
    the page size; one unknown transaction in the page makes the whole
    page a 400 [missing tx]; and an answer has status 200, at most
    [per_page] transactions and the TTL of the block's depth. *)
Theorem block_txs_arm (per_page : Z) (hash : RString) (h : BlockHash) (txids : list Txid) :
  hash_from_hex hash = Some h -> get_block_txids h = Some txids ->
  (forall el, parse_u32 el = None ->
     handle_block_txs' per_page hash (Some el) = handle_block_txs' per_page hash None) /\
  (txids = [] -> forall st,
     handle_block_txs' per_page hash st = Some (Err (not_found RStartIndexOutOfRange))) /\
  (txids <> [] -> handle_block_txs' 0 hash None = None) /\
  (forall el n, parse_u32 el = Some n -> n < Z.of_nat (length txids) ->
     handle_block_txs' 0 hash (Some el) = None) /\
  (forall el n, parse_u32 el = Some n -> n < Z.of_nat (length txids) -> per_page <> 0 ->
     n mod per_page <> 0 ->
     handle_block_txs' per_page hash (Some el) =
       Some (Err (error_from (RStartIndexMultiple per_page)))) /\
  (forall el n t, parse_u32 el = Some n -> n < Z.of_nat (length txids) -> 0 < per_page ->
     n mod per_page = 0 ->
     In t (firstn (Z.to_nat per_page) (skipn (Z.to_nat n) txids)) -> lookup_txn t = None ->
     handle_block_txs' per_page hash (Some el) = Some (Err (error_from RMissingTx))) /\
  (forall st r, 0 < per_page -> handle_block_txs' per_page hash st = Some (Ok r) ->
     r_status r = 200 /\ (length (r_body r) <= Z.to_nat per_page)%nat /\
     r_ttl r = ttl_by_depth (option_map bid_height (blockid_by_hash h)) best_height).
Proof.
  intros Hh Hb. unfold handle_block_txs', handle_block_txs, parse_hash, ok_or.
  rewrite Hh, Hb.
  split; [|split; [|split; [|split; [|split; [|split]]]]].
  - intros el He. rewrite He. reflexivity.
  - intros -> st. simpl.
    destruct st as [el|]; [destruct (parse_u32 el) as [n|] eqn:En|]; simpl; try reflexivity.
    pose proof (parse_uint_nonneg _ _ _ En).
    replace (0 <=? n) with true by (symmetry; apply Z.leb_le; lia). reflexivity.
  - intros Hne. destruct txids as [|t l]; [contradiction|].
    replace (Z.of_nat (length (t :: l)) <=? 0) with false
      by (symmetry; apply Z.leb_gt; simpl; lia).
    reflexivity.
  - intros el n He Hn. rewrite He.
    replace (Z.of_nat (length txids) <=? n) with false by (symmetry; apply Z.leb_gt; lia).
    reflexivity.
  - intros el n He Hn Hp Hm. rewrite He.
    replace (Z.of_nat (length txids) <=? n) with false by (symmetry; apply Z.leb_gt; lia).
    replace (per_page =? 0) with false by (symmetry; apply Z.eqb_neq; exact Hp).
    replace (n mod per_page =? 0) with false by (symmetry; apply Z.eqb_neq; exact Hm).
    reflexivity.
  - intros el n t He Hn Hp Hm Hin Ht. rewrite He.
    replace (Z.of_nat (length txids) <=? n) with false by (symmetry; apply Z.leb_gt; lia).
    replace (per_page =? 0) with false by (symmetry; apply Z.eqb_neq; lia).
    rewrite Hm. simpl. rewrite (lookup_block_txs_missing _ _ t Hin Ht). reflexivity.
  - intros st r Hp.
    set (s := match st with Some el => match parse_u32 el with Some n => n | None => 0 end
                            | None => 0 end).
    destruct (Z.of_nat (length txids) <=? s); [discriminate|].
    replace (per_page =? 0) with false by (symmetry; apply Z.eqb_neq; lia).
    destruct (negb (s mod per_page =? 0)); [discriminate|].
    destruct (lookup_block_txs lookup_txn (blockid_by_hash h)
                (firstn (Z.to_nat per_page) (skipn (Z.to_nat s) txids))) as [txs|e] eqn:El;
      simpl; [|discriminate].
    intros H. injection H as <-. simpl.
    split; [reflexivity|]. split; [|reflexivity].
    pose proof (lookup_block_txs_length _ _ _ El) as Hl. rewrite length_firstn in Hl.
    pose proof (prepare_length_le txs). fold prepare'. lia.
Qed.

(** Walking a block page by page: when every transaction of a block of at
    most [2^32] transactions is known and the page size is positive, the
    requests with start index [0, per_page, 2 * per_page, ...] (written in
    decimal) below the block's length all answer 200, and their pages,
    concatenated in order, are exactly the values of all the block's
    transactions. *)
Theorem block_txs_pages (per_page : Z) (hash : RString) (h : BlockHash) (txids : list Txid) txs :
  hash_from_hex hash = Some h -> get_block_txids h = Some txids ->
  0 < per_page -> Z.of_nat (length txids) <= 2 ^ 32 ->
  lookup_block_txs lookup_txn (blockid_by_hash h) txids = Ok txs ->
  exists pages : list (list TransactionValue),
    (length txids <= length pages * Z.to_nat per_page)%nat /\
    (forall k page, nth_error pages k = Some page ->
       Z.of_nat k * per_page < Z.of_nat (length txids) /\
       handle_block_txs' per_page hash (Some (usize_to_string (Z.of_nat k * per_page))) =
         Some (Ok {| r_status := 200; r_body := page;
                     r_ttl := ttl_by_depth (option_map bid_height (blockid_by_hash h))
                                best_height |})) /\
    concat pages = prepare' txs.
Proof.
  intros Hh Hb Hp Hlen Hl.
  set (p := Z.to_nat per_page). set (len := length txids).
  set (q := ((len + p - 1) / p)%nat).
  assert (Hp' : (0 < p)%nat) by (unfold p; lia).
  pose proof (Nat.div_mod (len + p - 1) p ltac:(lia)) as Hdm.
  pose proof (Nat.mod_upper_bound (len + p - 1) p ltac:(lia)) as Hmb.
  fold q in Hdm.
  assert (Hq : (len <= q * p)%nat) by nia.
  assert (Hk : forall k, (k < q)%nat -> (k * p < len)%nat) by (intros k Hk; nia).
  exists (map (fun k => prepare' (firstn p (skipn (k * p) txs))) (seq 0 q)).
  split; [rewrite length_map, length_seq; exact Hq|]. split.
  - intros k page Hn. rewrite nth_error_map in Hn.
    destruct (nth_error (seq 0 q) k) as [k'|] eqn:Ek; simpl in Hn; [|discriminate].
    injection Hn as <-.
    assert (k < q)%nat by (rewrite <- (length_seq q 0); apply nth_error_Some; congruence).
    rewrite nth_error_seq in Ek. destruct (Nat.ltb_spec k q); [|lia].
    injection Ek as <-. simpl.
    specialize (Hk k H).
    assert (Hkp : Z.of_nat k * per_page = Z.of_nat (k * p)) by (unfold p; lia).
    split; [unfold len in Hk; lia|].
    unfold handle_block_txs', handle_block_txs, parse_hash, ok_or. rewrite Hh, Hb.
    rewrite parse_u32_to_string by (unfold len in Hk; lia).
    replace (Z.of_nat (length txids) <=? Z.of_nat k * per_page) with false
      by (symmetry; apply Z.leb_gt; unfold len in Hk; lia).
    replace (per_page =? 0) with false by (symmetry; apply Z.eqb_neq; lia).
    replace (Z.of_nat k * per_page mod per_page =? 0) with true
      by (symmetry; apply Z.eqb_eq; apply Z.mod_mul; lia).
    simpl. rewrite Hkp, Nat2Z.id. fold p.
    destruct (lookup_block_txs_split _ _ _ Hl (k * p)) as [_ Hs].
    destruct (lookup_block_txs_split _ _ _ Hs p) as [Hf _].
    rewrite Hf. reflexivity.
  - transitivity (prepare' (concat (map (fun k => firstn p (skipn (k * p) txs)) (seq 0 q)))).
    + unfold prepare', prepare. induction (seq 0 q) as [|k ks IH]; [reflexivity|].
      simpl. rewrite TxValueFacts.prepare_txs_app, IH. reflexivity.
    + rewrite firstn_skipn_chunks; [reflexivity|].
      rewrite (lookup_block_txs_length _ _ _ Hl). exact Hq.
Qed.

End Store.

Lemma block_txs_arm_witness :
  handle_block_txs (fun _ _ => Some 0) (fun _ _ => 0) (fun _ => None)
    (fun h => if h =? 0 then Some [1; 2; 3] else None) (fun _ => None)
    (fun t => Some {| txid := t; input := []; output := [] |}) 100 2 (repeat 48 64) (Some [49])
  = Some (Err (error_from (RStartIndexMultiple 2))).
Proof.
  destruct (block_txs_arm (fun _ _ => Some 0) (fun _ _ => 0) (fun _ => None)
    (fun h => if h =? 0 then Some [1; 2; 3] else None) (fun _ => None)
    (fun t => Some {| txid := t; input := []; output := [] |}) 100 2 (repeat 48 64) 0 [1; 2; 3]
    ltac:(vm_compute; reflexivity) ltac:(reflexivity)) as [_ [_ [_ [_ [Hm _]]]]].
  apply (Hm [49] 1); [vm_compute; reflexivity|simpl; lia|discriminate|cbv; discriminate].
Defined.

Lemma block_txs_pages_witness :
  exists pages : list (list TransactionValue),
    concat pages =
    prepare (fun _ _ => Some 0) (fun _ _ => 0) (fun _ => None)
      [({| txid := 1; input := []; output := [] |}, None);
       ({| txid := 2; input := []; output := [] |}, None);
       ({| txid := 3; input := []; output := [] |}, None)].
Proof.
  destruct (block_txs_pages (fun _ _ => Some 0) (fun _ _ => 0) (fun _ => None)
    (fun h => if h =? 0 then Some [1; 2; 3] else None) (fun _ => None)
    (fun t => Some {| txid := t; input := []; output := [] |}) 100 2 (repeat 48 64) 0 [1; 2; 3]
    [({| txid := 1; input := []; output := [] |}, None);
     ({| txid := 2; input := []; output := [] |}, None);
     ({| txid := 3; input := []; output := [] |}, None)]
    ltac:(vm_compute; reflexivity) ltac:(reflexivity) ltac:(lia) ltac:(simpl; lia)
    ltac:(reflexivity)) as [pages [_ [_ Hc]]].
  exists pages. exact Hc.
Defined.

End BlockTxsFacts.

Module RestTxFacts.
Import Types Ttl TxTest TxValues Outspend Rest.
Local Open Scope Z_scope.

Lemma split_on_nosep (sep : Z) (s : RString) : ~ In sep s -> split_on sep s = [s].
Proof.
  induction s as [|c s IH]; intros Hn; [reflexivity|].
  simpl. replace (c =? sep) with false
    by (symmetry; apply Z.eqb_neq; intros ->; apply Hn; left; reflexivity).
  rewrite IH; [reflexivity|]. intros Hi; apply Hn; right; exact Hi.
Qed.

Lemma split_on_app (sep : Z) (a b : RString) :
  ~ In sep a -> split_on sep (a ++ sep :: b) = a :: split_on sep b.
Proof.
  induction a as [|c a IH]; intros Hn; simpl.
  - rewrite Z.eqb_refl. reflexivity.
  - replace (c =? sep) with false
      by (symmetry; apply Z.eqb_neq; intros ->; apply Hn; left; reflexivity).
    rewrite IH; [reflexivity|]. intros Hi; apply Hn; right; exact Hi.
Qed.

Lemma split_on_length (sep : Z) (s : RString) :
  length (split_on sep s) = S (length (filter (fun c => c =? sep) s)).
Proof.
  induction s as [|c s IH]; [reflexivity|]. simpl.
  destruct (c =? sep); simpl; [rewrite IH; reflexivity|].
  destruct (split_on sep s) as [|piece pieces]; simpl in IH |- *; [discriminate|exact IH].
Qed.

Lemma split_on_pieces (sep : Z) (s : RString) (piece : RString) :
  In piece (split_on sep s) -> ~ In sep piece.
Proof.
  revert piece. induction s as [|c s IH]; intros piece Hin; simpl in Hin.
  - destruct Hin as [<-|[]]. intros [].
  - destruct (Z.eqb_spec c sep) as [->|Hc].
    + destruct Hin as [<-|Hin]; [intros []|exact (IH _ Hin)].
    + destruct (split_on sep s) as [|p ps] eqn:E.
      * destruct Hin as [<-|[]]. intros [Hs|[]]. congruence.
      * destruct Hin as [<-|Hin].
        -- intros [Hs|Hs]; [congruence|]. apply (IH p); [left; reflexivity|exact Hs].
        -- apply IH. right. exact Hin.
Qed.

Lemma hex_encode_chars (bytes : list Z) :
  Forall (fun b => 0 <= b < 256) bytes ->
  Forall (fun c => (48 <= c <= 57) \/ (97 <= c <= 102)) (hex_encode bytes).
Proof.
  induction bytes as [|b bytes IH]; intros Hb; [constructor|].
  inversion Hb as [|? ? Hb0 Hbs]; subst.
  assert (Hd : forall n, 0 <= n < 16 -> (48 <= hex_digit n <= 57) \/ (97 <= hex_digit n <= 102)).
  { intros n Hn. unfold hex_digit. destruct (Z.ltb_spec n 10); lia. }
  unfold hex_encode in *. cbn [flat_map app].
  constructor; [apply Hd; split; [apply Z.div_pos|apply Z.div_lt_upper_bound]; lia|].
  constructor; [apply Hd; apply Z.mod_pos_bound; lia|].
  exact (IH Hbs).
Qed.

Lemma hash_from_hex_encode (bytes : list Z) :
  length bytes = 32%nat -> Forall (fun b => 0 <= b < 256) bytes ->
  hash_from_hex (hex_encode bytes) = Some (bytes_value (rev bytes)).
Proof.
  intros Hl Hb. unfold hash_from_hex. rewrite RestHexFacts.from_hex_hex_encode by exact Hb.
  rewrite Hl. reflexivity.
Qed.

Lemma usize_to_string_digits (n : Z) :
  0 <= n < 2 ^ 64 -> Forall (fun c => 48 <= c <= 57) (usize_to_string n).
Proof.
  intros Hn. unfold usize_to_string.
  destruct (RestParseFacts.dec_digits_spec 20 n) as [ds [Hd [_ [Hf _]]]]; [lia| |].
  { split; [lia|]. assert (2 ^ 64 < 10 ^ Z.of_nat 20) by reflexivity. lia. }
  rewrite Hd. clear Hd. induction Hf as [|d ds Hd0 Hf IH]; constructor; [lia|exact IH].
Qed.

Lemma not_in_of_forall (P : Z -> Prop) (x : Z) (l : list Z) :
  Forall P l -> ~ P x -> ~ In x l.
Proof. intros Hf Hx Hin. apply Hx. exact (proj1 (Forall_forall P l) Hf x Hin). Qed.

Lemma parse_txids_some (strs : list RString) (txids : list Txid) :
  Forall2 (fun s t => hash_from_hex s = Some t) strs txids -> parse_txids strs = Some txids.
Proof. induction 1 as [|s t strs txids Ht _ IH]; [reflexivity|]. simpl. rewrite Ht, IH. reflexivity. Qed.

Lemma parse_txids_none (strs : list RString) (s : RString) :
  In s strs -> hash_from_hex s = None -> parse_txids strs = None.
Proof.
  induction strs as [|s' strs IH]; intros Hin Hs; [destruct Hin|].
  simpl. destruct Hin as [<-|Hin].
  - rewrite Hs. reflexivity.
  - rewrite (IH Hin Hs). destruct (hash_from_hex s'); reflexivity.
Qed.

Lemma filter_map_prepare sig fee txo (f : Txid -> option (Transaction * option BlockId))
    (txids : list Txid) :
  prepare_txs sig fee txo (TxValues.filter_map f txids) =
  concat (map (fun t => match f t with
                        | None => []
                        | Some (tx, b) =>
                            match TransactionValue_new sig fee tx b txo with
                            | Ok v => [v]
                            | Err _ => []
                            end
                        end) txids).
Proof.
  induction txids as [|t txids IH]; [reflexivity|].
  simpl. destruct (f t) as [[tx b]|] eqn:Ef.
  - change ((tx, b) :: TxValues.filter_map f txids) with ([(tx, b)] ++ TxValues.filter_map f txids).
    rewrite TxValueFacts.prepare_txs_app, IH, TxValueFacts.prepare_txs_full. simpl.
    rewrite app_nil_r. reflexivity.
  - exact IH.
Qed.

Section Store.
Variable transaction_sigop_count : Transaction -> Prevouts -> option Z.
Variable get_tx_fee : Transaction -> Prevouts -> Z.
Variable lookup_txo : OutPoint -> option TxOut.
Variable lookup_txn : Txid -> option Transaction.
Variable mempool_lookup_txn : Txid -> option Transaction.
Variable tx_confirming_block : Txid -> option BlockId.
Variable best_height : Z.
Variable lookup_tx_spends : Transaction -> list (option SpendingInput).
Variable lookup_spend : OutPoint -> option SpendingInput.

Let handle_tx' :=
  handle_tx transaction_sigop_count get_tx_fee lookup_txo lookup_txn tx_confirming_block
    best_height.

(** [GET /tx/{txid}]: a malformed txid is a 400 and an unknown one a 404;
    a known transaction is answered with its [TransactionValue], status
    200 and the TTL of its confirming block's depth, unless the value
    cannot be built (for instance one of its prevouts is missing), which
    is answered with status 500 and TTL 0 instead of an error. *)
Theorem tx_arm (hash : RString) (h : Txid) (tx : Transaction) :
  (hash_from_hex hash = None -> handle_tx' hash = Err (error_from RInvalidHexString)) /\
  (hash_from_hex hash = Some h -> lookup_txn h = None ->
     handle_tx' hash = Err (not_found RTransactionNotFound)) /\
  (hash_from_hex hash = Some h -> lookup_txn h = Some tx ->
     handle_tx' hash =
       match TransactionValue_new transaction_sigop_count get_tx_fee tx
               (tx_confirming_block h) lookup_txo with
       | Ok v => Ok {| r_status := 200; r_body := inl v;
                       r_ttl := ttl_by_depth (option_map bid_height (tx_confirming_block h))
                                  best_height |}
       | Err _ => Ok {| r_status := 500; r_body := inr RTransactionMissingPrevouts; r_ttl := 0 |}
       end) /\
  (forall txin, hash_from_hex hash = Some h -> lookup_txn h = Some tx ->
     In txin (input tx) -> has_prevout txin = true -> lookup_txo (previous_output txin) = None ->
     handle_tx' hash =
       Ok {| r_status := 500; r_body := inr RTransactionMissingPrevouts; r_ttl := 0 |}).
Proof.
  assert (Hknown : hash_from_hex hash = Some h -> lookup_txn h = Some tx ->
     handle_tx' hash =
       match TransactionValue_new transaction_sigop_count get_tx_fee tx
               (tx_confirming_block h) lookup_txo with
       | Ok v => Ok {| r_status := 200; r_body := inl v;
                       r_ttl := ttl_by_depth (option_map bid_height (tx_confirming_block h))
                                  best_height |}
       | Err _ => Ok {| r_status := 500; r_body := inr RTransactionMissingPrevouts; r_ttl := 0 |}
       end).
  { intros H1 H2. unfold handle_tx', handle_tx, parse_hash, ok_or, prepare.
    rewrite H1. simpl. rewrite H2. simpl.
    rewrite TxValueFacts.prepare_txs_full. simpl.
    destruct (TransactionValue_new _ _ tx _ lookup_txo); reflexivity. }
  split; [|split; [|split]].
  - intros H. unfold handle_tx', handle_tx, parse_hash, ok_or. rewrite H. reflexivity.
  - intros H1 H2. unfold handle_tx', handle_tx, parse_hash, ok_or. rewrite H1. simpl.
    rewrite H2. reflexivity.
  - exact Hknown.
  - intros txin H1 H2 Hin Hp Hn. rewrite (Hknown H1 H2).
    unfold TransactionValue_new, extract_tx_prevouts.
    destruct (PrepareFacts.enumerate_from_in 0 (input tx) txin Hin) as [i Hi].
    destruct (PrepareFacts.extract_prevouts_missing lookup_txo (enumerate_from 0 (input tx))
                i txin Hi Hp Hn) as [e He].
    rewrite He. reflexivity.
Qed.

(** [GET /txs/outspends?txids=...]: without the parameter the answer is a
    400; the parameter is cut at every [,] into one more piece than it has
    commas; more than 50 pieces are refused with a 400 message of TTL 0;
    otherwise the answer (200, [TTL_SHORT]) has one list per piece, in
    order: the spends of that transaction's outputs when the piece is a
    known txid, and an empty list when it is malformed or unknown.  The
    [by-txid] variant answers lists of any length the same way. *)
Theorem txs_outspends_arm (s : RString) :
  handle_txs_outspends lookup_txn lookup_tx_spends None = Err (error_from RNoTxidsSpecified) /\
  length (split_on 44 s) = S (length (filter (fun c => c =? 44) s)) /\
  (50 < Z.of_nat (length (split_on 44 s)) ->
     handle_txs_outspends lookup_txn lookup_tx_spends (Some s) =
       Ok {| r_status := 400; r_body := inr RTooManyTxids; r_ttl := 0 |}) /\
  (Z.of_nat (length (split_on 44 s)) <= 50 ->
     exists spends,
       handle_txs_outspends lookup_txn lookup_tx_spends (Some s) =
         Ok {| r_status := 200; r_body := inl spends; r_ttl := TTL_SHORT |} /\
       length spends = length (split_on 44 s) /\
       forall i piece, nth_error (split_on 44 s) i = Some piece ->
         ~ In 44 piece /\ nth_error spends i = Some (tx_spends lookup_txn lookup_tx_spends piece)) /\
  (forall piece, hash_from_hex piece = None -> tx_spends lookup_txn lookup_tx_spends piece = []) /\
  (forall piece t, hash_from_hex piece = Some t -> lookup_txn t = None ->
     tx_spends lookup_txn lookup_tx_spends piece = []) /\
  (forall piece t tx, hash_from_hex piece = Some t -> lookup_txn t = Some tx ->
     tx_spends lookup_txn lookup_tx_spends piece = map spending_value (lookup_tx_spends tx)) /\
  (forall strs, handle_outspends_by_txid lookup_txn lookup_tx_spends (Ok strs) =
     Ok {| r_status := 200; r_body := map (tx_spends lookup_txn lookup_tx_spends) strs;
           r_ttl := TTL_SHORT |}).
Proof.
  split; [reflexivity|]. split; [apply split_on_length|].
  split; [|split; [|split; [|split; [|split]]]].
  - intros H. unfold handle_txs_outspends. simpl.
    replace (50 <? Z.of_nat (length (split_on 44 s))) with true
      by (symmetry; apply Z.ltb_lt; exact H). reflexivity.
  - intros H. unfold handle_txs_outspends. simpl.
    replace (50 <? Z.of_nat (length (split_on 44 s))) with false
      by (symmetry; apply Z.ltb_ge; exact H).
    eexists. split; [reflexivity|]. split; [apply length_map|].
    intros i piece Hi. split.
    + apply (split_on_pieces 44 s). exact (nth_error_In _ _ Hi).
    + rewrite nth_error_map, Hi. reflexivity.
  - intros piece H. unfold tx_spends. rewrite H. reflexivity.
  - intros piece t H1 H2. unfold tx_spends. rewrite H1. simpl. rewrite H2. reflexivity.
  - intros piece t tx H1 H2. unfold tx_spends. rewrite H1. simpl. rewrite H2. reflexivity.
  - intros strs. reflexivity.
Qed.

(** One outpoint of [POST /internal/txs/outspends/by-outpoint]: a string
    without [:] answers the default (unspent) value; a string
    [hash:index], possibly followed by more [:]-separated parts that are
    ignored, answers the spend of that outpoint when both parts parse and
    the default value otherwise; in particular an outpoint written as a
    client writes it, the txid in hex and the vout in decimal, is looked up
    as that outpoint. *)
Theorem outpoint_spend_parts :
  (forall s, ~ In 58 s -> outpoint_spend lookup_spend s = SpendingValue_default) /\
  (forall hash idx tail, ~ In 58 hash -> ~ In 58 idx ->
     (tail = [] \/ exists t, tail = 58 :: t) ->
     outpoint_spend lookup_spend (hash ++ 58 :: idx ++ tail) =
       match hash_from_hex hash, parse_u32 idx with
       | Some txid, Some vout =>
           spending_value (lookup_spend {| op_txid := txid; op_vout := vout |})
       | _, _ => SpendingValue_default
       end) /\
  (forall bytes vout tail, length bytes = 32%nat -> Forall (fun b => 0 <= b < 256) bytes ->
     0 <= vout < 2 ^ 32 -> (tail = [] \/ exists t, tail = 58 :: t) ->
     outpoint_spend lookup_spend (hex_encode bytes ++ 58 :: usize_to_string vout ++ tail) =
       spending_value (lookup_spend {| op_txid := bytes_value (rev bytes); op_vout := vout |})).
Proof.
  assert (Hparts : forall hash idx tail, ~ In 58 hash -> ~ In 58 idx ->
     (tail = [] \/ exists t, tail = 58 :: t) ->
     outpoint_spend lookup_spend (hash ++ 58 :: idx ++ tail) =
       match hash_from_hex hash, parse_u32 idx with
       | Some txid, Some vout =>
           spending_value (lookup_spend {| op_txid := txid; op_vout := vout |})
       | _, _ => SpendingValue_default
       end).
  { intros hash idx tail Hh Hi Ht. unfold outpoint_spend.
    rewrite split_on_app by exact Hh.
    destruct Ht as [->|[t ->]].
    - rewrite app_nil_r, split_on_nosep by exact Hi. reflexivity.
    - rewrite split_on_app by exact Hi. reflexivity. }
  split; [|split; [exact Hparts|]].
  - intros s Hs. unfold outpoint_spend. rewrite split_on_nosep by exact Hs. reflexivity.
  - intros bytes vout tail Hl Hb Hv Ht.
    rewrite Hparts; [| | |exact Ht].
    + rewrite hash_from_hex_encode by assumption.
      rewrite BlockTxsFacts.parse_u32_to_string by exact Hv. reflexivity.
    + apply (not_in_of_forall _ 58 _ (hex_encode_chars bytes Hb)). lia.
    + apply (not_in_of_forall _ 58 _ (usize_to_string_digits vout ltac:(lia))). lia.
Qed.

(** [POST /internal/txs] and [POST /internal/mempool/txs]: a body that is
    not a JSON list of strings is the decoding error; one string that is
    not a txid makes the whole answer a 400 message of TTL 0; otherwise
    the answer (200, TTL 0) lists, in the order requested, the value of
    each requested transaction that is known (in the chain store, resp.
    in the mempool, with no confirmation for the latter) and whose value
    can be built, skipping the others. *)
Theorem internal_txs_arms (strs : list RString) (txids : list Txid) (e : RestError) :
  handle_internal_txs transaction_sigop_count get_tx_fee lookup_txo lookup_txn
    tx_confirming_block (Err e) = Err e /\
  handle_internal_mempool_txs transaction_sigop_count get_tx_fee lookup_txo
    mempool_lookup_txn (Err e) = Err e /\
  ((exists s, In s strs /\ hash_from_hex s = None) ->
     handle_internal_txs transaction_sigop_count get_tx_fee lookup_txo lookup_txn
       tx_confirming_block (Ok strs) =
       Ok {| r_status := 400; r_body := inr RHexError; r_ttl := 0 |} /\
     handle_internal_mempool_txs transaction_sigop_count get_tx_fee lookup_txo
       mempool_lookup_txn (Ok strs) =
       Ok {| r_status := 400; r_body := inr RHexError; r_ttl := 0 |}) /\
  (Forall2 (fun s t => hash_from_hex s = Some t) strs txids ->
     handle_internal_txs transaction_sigop_count get_tx_fee lookup_txo lookup_txn
       tx_confirming_block (Ok strs) =
       Ok {| r_status := 200; r_ttl := 0;
             r_body := inl (concat (map (fun t =>
               match lookup_txn t with
               | None => []
               | Some tx =>
                   match TransactionValue_new transaction_sigop_count get_tx_fee tx
                           (tx_confirming_block t) lookup_txo with
                   | Ok v => [v]
                   | Err _ => []
                   end
               end) txids)) |} /\
     handle_internal_mempool_txs transaction_sigop_count get_tx_fee lookup_txo
       mempool_lookup_txn (Ok strs) =
       Ok {| r_status := 200; r_ttl := 0;
             r_body := inl (concat (map (fun t =>
               match mempool_lookup_txn t with
               | None => []
               | Some tx =>
                   match TransactionValue_new transaction_sigop_count get_tx_fee tx
                           None lookup_txo with
                   | Ok v => [v]
                   | Err _ => []
                   end
               end) txids)) |}).
Proof.
  split; [reflexivity|]. split; [reflexivity|]. split.
  - intros [s [Hin Hs]]. unfold handle_internal_txs, handle_internal_mempool_txs. simpl.
    rewrite (parse_txids_none strs s Hin Hs). split; reflexivity.
  - intros Hf. unfold handle_internal_txs, handle_internal_mempool_txs, prepare. simpl.
    rewrite (parse_txids_some strs txids Hf).
    rewrite !filter_map_prepare. unfold json_response.
    split; apply (f_equal (fun b => Ok {| r_status := 200; r_body := inl (concat b); r_ttl := 0 |}));
      apply map_ext; intros t;
      [destruct (lookup_txn t)|destruct (mempool_lookup_txn t)]; reflexivity.
Qed.

End Store.

End RestTxFacts.

Module MultiLimitFacts.
Import Types TxValues History.
Local Open Scope Z_scope.

Lemma filter_map_length_le {A B} (f : A -> option B) (l : list A) :
  (length (filter_map f l) <= length l)%nat.
Proof. induction l as [|x l IH]; simpl; [lia|]. destruct (f x); simpl; lia. Qed.

(** The multi-address arms ([POST /addresses/txs], [POST /scripthashes/txs]
    and their [/summary] variants) refuse with 422 [body too long] a body
    of more than [(8 + 64) * 300 = 21600] bytes, before decoding it, and a
    decoded list of more than 300 strings; when they go on, the body had at
    most 21600 bytes, the list at most 300 entries, and at most that many
    scripthashes are queried. *)
Theorem multi_address_limits sig fee txo (q : Backend)
    (to_scripthash : list Z -> result FullHash HttpError) (body_len : Z)
    (script_strs : result (list (list Z)) HttpError) (max_txs : nat) (after : option Txid) :
  (21600 < body_len ->
     parse_script_hashes to_scripthash (Rest.multi_address_too_long body_len) script_strs =
       Err {| he_status := UNPROCESSABLE_ENTITY; he_msg := MsgBodyTooLong |} /\
     handle_multi_txs sig fee txo q to_scripthash (Rest.multi_address_too_long body_len)
       script_strs max_txs after =
       Err {| he_status := UNPROCESSABLE_ENTITY; he_msg := MsgBodyTooLong |} /\
     handle_multi_summary q to_scripthash (Rest.multi_address_too_long body_len)
       script_strs after max_txs =
       Err {| he_status := UNPROCESSABLE_ENTITY; he_msg := MsgBodyTooLong |}) /\
  (forall strs, body_len <= 21600 -> script_strs = Ok strs -> (300 < length strs)%nat ->
     parse_script_hashes to_scripthash (Rest.multi_address_too_long body_len) script_strs =
       Err {| he_status := UNPROCESSABLE_ENTITY; he_msg := MsgBodyTooLong |}) /\
  (forall hashes,
     parse_script_hashes to_scripthash (Rest.multi_address_too_long body_len) script_strs =
       Ok hashes ->
     body_len <= 21600 /\
     exists strs, script_strs = Ok strs /\ (length strs <= 300)%nat /\
       (length hashes <= length strs)%nat).
Proof.
  unfold Rest.multi_address_too_long, MULTI_ADDRESS_LIMIT.
  change ((8 + 64) * Z.of_nat 300) with 21600.
  split; [|split].
  - intros H. replace (21600 <? body_len) with true by (symmetry; apply Z.ltb_lt; exact H).
    split; [reflexivity|]. split; reflexivity.
  - intros strs Hb -> Hl. replace (21600 <? body_len) with false
      by (symmetry; apply Z.ltb_ge; exact Hb).
    unfold parse_script_hashes, MULTI_ADDRESS_LIMIT.
    simpl. replace (Nat.ltb 300 (length strs)) with true
      by (symmetry; apply Nat.ltb_lt; exact Hl). reflexivity.
  - intros hashes. unfold parse_script_hashes, MULTI_ADDRESS_LIMIT.
    destruct (Z.ltb_spec 21600 body_len); [discriminate|].
    destruct script_strs as [strs|e]; simpl; [|discriminate].
    destruct (Nat.ltb_spec 300 (length strs)); [discriminate|].
    intros Hh. injection Hh as <-. split; [assumption|].
    exists strs. split; [reflexivity|]. split; [assumption|].
    apply filter_map_length_le.
Qed.

End MultiLimitFacts.

Module EncodingFacts.
Import Types Ttl TxTest Rest.
Local Open Scope Z_scope.

(** The [witness] of an input is shown as [None] exactly when it has no
    items; otherwise as one lower-case hex string per item, twice as long
    as the item, that decodes back to the item. *)
Theorem witness_value_round_trip (witness : list (list Z)) :
  (witness_value witness = None <-> witness = []) /\
  (Forall (Forall (fun b => 0 <= b < 256)) witness -> witness <> [] ->
     exists strs, witness_value witness = Some strs /\
       map from_hex strs = map Some witness /\
       map (@length Z) strs = map (fun item => (2 * length item)%nat) witness).
Proof.
  split.
  - destruct witness; simpl; split; intros H; congruence.
  - intros Hf Hne. destruct witness as [|item rest] eqn:Ew; [contradiction|].
    rewrite <- Ew in *. exists (map hex_encode witness).
    split; [rewrite Ew; reflexivity|].
    rewrite !map_map. split.
    + apply map_ext_in. intros i Hi. rewrite RestHexFacts.from_hex_hex_encode; [reflexivity|].
      exact (proj1 (Forall_forall _ _) Hf i Hi).
    + apply map_ext. intros i. apply RestHexFacts.hex_encode_length.
Qed.

Lemma witness_value_round_trip_witness :
  exists strs, witness_value [[0; 171]; [255]] = Some strs /\
    map from_hex strs = map Some [[0; 171]; [255]].
Proof.
  destruct (proj2 (witness_value_round_trip [[0; 171]; [255]])) as [strs [H1 [H2 _]]].
  - repeat constructor; lia.
  - discriminate.
  - exists strs. split; assumption.
Defined.

(** [ttl_by_depth] as a release build computes it: the subtraction
    [best_height - height] wraps, so a height above the tip (a block the
    chain no longer, or not yet, reaches at the tip read) is cached for
    [TTL_LONG] rather than refused or cached short. *)
Theorem ttl_above_tip_long (h best : Z) :
  0 <= best < h -> h < 2 ^ 64 - 10 -> ttl_by_depth (Some h) best = TTL_LONG.
Proof.
  intros H1 H2. unfold ttl_by_depth, usize_sub, CONF_FINAL.
  rewrite <- (Z.mod_add (best - h) 1 (2 ^ 64)) by lia.
  rewrite Z.mod_small by lia.
  replace (10 <=? best - h + 1 * 2 ^ 64) with true by (symmetry; apply Z.leb_le; lia).
  reflexivity.
Qed.

Lemma ttl_above_tip_long_witness :
  (0 <= 100 < 105 /\ 105 < 2 ^ 64 - 10) /\ ttl_by_depth (Some 105) 100 = TTL_LONG.
Proof. split; [lia|]. apply ttl_above_tip_long; lia. Defined.

End EncodingFacts.

Module TxTestWeightFacts.
Import Types TxTest Rest.
Local Open Scope Z_scope.

Lemma le_bytes_length (n : nat) (v : Z) : length (le_bytes n v) = n.
Proof. unfold le_bytes. rewrite length_map, length_seq. reflexivity. Qed.

Lemma le_bytes_range (n : nat) (v : Z) : Forall (fun b => 0 <= b < 256) (le_bytes n v).
Proof.
  unfold le_bytes. apply Forall_forall. intros b Hb. apply in_map_iff in Hb.
  destruct Hb as [i [<- _]]. apply Z.mod_pos_bound. lia.
Qed.

Lemma serialize_one_in_one_out (sc : list Z) :
  65536 <= Z.of_nat (length sc) < 2 ^ 32 -> Forall (fun b => 0 <= b < 256) sc ->
  let bytes := serialize_legacy 1 0
    {| txid := 0;
       input := [{| previous_output := {| op_txid := 1; op_vout := 0 |};
                    sequence := 4294967295 |}];
       output := [{| value := 0; script_pubkey := sc |}] |} in
  length bytes = (64 + length sc)%nat /\ Forall (fun b => 0 <= b < 256) bytes.
Proof.
  intros Hl Hsc bytes.
  assert (Hcs : compact_size (Z.of_nat (length sc)) = 254 :: le_bytes 4 (Z.of_nat (length sc))).
  { unfold compact_size.
    replace (Z.of_nat (length sc) <? 253) with false by (symmetry; apply Z.ltb_ge; lia).
    replace (Z.of_nat (length sc) <? 65536) with false by (symmetry; apply Z.ltb_ge; lia).
    replace (Z.of_nat (length sc) <? 2 ^ 32) with true by (symmetry; apply Z.ltb_lt; lia).
    reflexivity. }
  unfold bytes, serialize_legacy. cbn [input output length flat_map previous_output
    op_txid op_vout sequence value script_pubkey]. rewrite Hcs.
  split.
  - rewrite !length_app, !le_bytes_length. cbn [length]. rewrite le_bytes_length. simpl. lia.
  - repeat (apply Forall_app; split); try apply le_bytes_range;
      try (repeat constructor; lia); try exact Hsc.
    constructor; [lia|apply le_bytes_range].
Qed.

(** C3 (counterexample): a transaction with one input and one output whose
    script has 100,000 bytes serializes, without witness, to 100,064 bytes,
    so it weighs 400,256 weight units, above 400,000; yet its hex string
    (200,128 characters) passes the pre-check and the call is forwarded to
    the node. *)
Lemma txs_test_accepts_heavy_tx :
  let tx := {| txid := 0;
               input := [{| previous_output := {| op_txid := 1; op_vout := 0 |};
                            sequence := 4294967295 |}];
               output := [{| value := 0; script_pubkey := repeat 0 (Z.to_nat 100000) |}] |} in
  let bytes := serialize_legacy 1 0 tx in
  Z.of_nat (length bytes) = 100064 /\
  400000 < tx_weight (Z.of_nat (length bytes)) (Z.of_nat (length bytes)) /\
  from_hex (Rest.hex_encode bytes) = Some bytes /\
  check_item 0 (Rest.hex_encode bytes) = Ok tt /\
  handle_txs_test (fun (_ : list RString) (_ : option float) => Ok tt)
    [Rest.hex_encode bytes] (Ok None) = Ok tt.
Proof.
  cbv zeta.
  assert (Hlen : Z.of_nat (length (repeat 0 (Z.to_nat 100000))) = 100000)
    by (rewrite repeat_length; lia).
  assert (Hsc : Forall (fun b => 0 <= b < 256) (repeat 0 (Z.to_nat 100000)))
    by (apply Forall_forall; intros x Hx; apply repeat_spec in Hx; lia).
  destruct (serialize_one_in_one_out (repeat 0 (Z.to_nat 100000)) ltac:(lia) Hsc) as [Hl Hb].
  set (bytes := serialize_legacy 1 0 _) in *. clearbody bytes.
  assert (Hbl : Z.of_nat (length bytes) = 100064) by lia.
  assert (Hh : from_hex (hex_encode bytes) = Some bytes)
    by (apply RestHexFacts.from_hex_hex_encode; exact Hb).
  assert (Hc : check_item 0 (hex_encode bytes) = Ok tt).
  { apply TxTestFacts.check_item_ok. split; [|exists bytes; exact Hh].
    unfold str_len. rewrite RestHexFacts.hex_encode_length. lia. }
  split; [exact Hbl|]. split; [unfold tx_weight; lia|].
  split; [exact Hh|]. split; [exact Hc|].
  revert Hc. generalize (hex_encode bytes). intros h Hc.
  unfold handle_txs_test. simpl. rewrite Hc. reflexivity.
Qed.

End TxTestWeightFacts.
